(** * PlantIdentifier: a shallow embedding of [src/PlantIdentifier.jsx]

    The component keeps five pieces of React state, talks to the Gemini
    endpoint once per identification attempt, and renders one of three
    panels.  This development embeds

    - the JavaScript values the component handles (strings as sequences of
      UTF-16 code units, decoded JSON, truthiness, [ToString]);
    - [identifyPlant] as a program over the platform calls it awaits
      ([FileReader], [fetch], [JSON.parse]), together with the state
      updates it performs when it starts and when it settles;
    - [handleImageUpload], [resetUpload] and the conditional rendering of
      the analysis panel;
    - the event loop of the component as a transition system.

    JSON numbers are modelled by integers, which is what the prompt asks
    the service for (a confidence, codes); fractions, magnitudes from
    2^53 on and IEEE doubles in general are outside the model.  [console.log] calls have no effect on the state and are left
    out. *)

From Stdlib Require Import Ascii String DecimalString DecimalN.
From Stdlib Require Import List Bool Arith NArith ZArith Lia.
Import ListNotations.

Set Warnings "-register-all".

(* ================================================================== *)
(** * JavaScript strings *)
(* ================================================================== *)

(** A string is its sequence of UTF-16 code units. *)
Definition char := N.
Definition jsstring := list char.

(** Literals of the source are written [str "..."]. *)
Definition str (s : string) : jsstring :=
  List.map N_of_ascii (list_ascii_of_string s).

Fixpoint string_eqb (a b : jsstring) : bool :=
  match a, b with
  | [], [] => true
  | x :: a', y :: b' => N.eqb x y && string_eqb a' b'
  | _, _ => false
  end.

Definition backtick : char := 96%N.
Definition newline : char := 10%N.
Definition comma : char := 44%N.

(** [WhiteSpace] and [LineTerminator] of ECMAScript: what
    [String.prototype.trim] removes. *)
Definition is_whitespace (c : char) : bool :=
  ((9 <=? c) && (c <=? 13) || (c =? 32) || (c =? 160) || (c =? 5760)
   || (8192 <=? c) && (c <=? 8202) || (c =? 8232) || (c =? 8233)
   || (c =? 8239) || (c =? 8287) || (c =? 12288) || (c =? 65279))%N.

Fixpoint trimStart (s : jsstring) : jsstring :=
  match s with
  | [] => []
  | c :: rest => if is_whitespace c then trimStart rest else s
  end.

Definition trimEnd (s : jsstring) : jsstring := rev (trimStart (rev s)).

(** [s.trim()] *)
Definition trim (s : jsstring) : jsstring := trimEnd (trimStart s).

Fixpoint starts_with (p s : jsstring) : bool :=
  match p, s with
  | [], _ => true
  | x :: p', y :: s' => N.eqb x y && starts_with p' s'
  | _ :: _, [] => false
  end.

(** [s.replace(/m\n?/g, '')] for a literal, non-empty marker [m]:
    scanning from the left, every occurrence of [m] is deleted together
    with the newline that follows it, if there is one, and the scan
    resumes after the deleted text.  [skip] counts the code units of the
    current match that are still to be deleted, which keeps the recursion
    structural; [remove_marker_keep] and [remove_marker_match] below are
    the two equations of the scan. *)
Fixpoint remove_marker_from (m : jsstring) (skip : nat) (s : jsstring)
  : jsstring :=
  match s with
  | [] => []
  | c :: rest =>
      match skip with
      | S k => remove_marker_from m k rest
      | O =>
          if starts_with m s then
            let matched :=
              match skipn (length m) s with
              | d :: _ => if N.eqb d newline then S (length m) else length m
              | [] => length m
              end in
            remove_marker_from m (pred matched) rest
          else c :: remove_marker_from m 0 rest
      end
  end.

Definition remove_marker (m s : jsstring) : jsstring :=
  remove_marker_from m 0 s.

(** The optional newline of the pattern. *)
Definition drop_newline (s : jsstring) : jsstring :=
  match s with
  | d :: rest => if N.eqb d newline then rest else s
  | [] => []
  end.

Definition all_whitespace (s : jsstring) : Prop :=
  Forall (fun c => is_whitespace c = true) s.

(** A tail whose first code unit does not occur in the marker neither
    completes nor starts a match of it. *)
Definition foreign_head (m tail : jsstring) : Prop :=
  match tail with
  | [] => True
  | d :: _ => ~ In d m
  end.

Definition fence_json : jsstring := str "```json".
Definition fence : jsstring := str "```".

(** Lines 136-139 of the source:
    [trim], [replace(/```json\n?/g, '')], [replace(/```\n?/g, '')], [trim]. *)
Definition cleanResponse (textResponse : jsstring) : jsstring :=
  let cleanedResponse := trim textResponse in
  let cleanedResponse := remove_marker fence_json cleanedResponse in
  let cleanedResponse := remove_marker fence cleanedResponse in
  trim cleanedResponse.

(** The text [t] wrapped in a fenced code block. *)
Definition fenced (t : jsstring) : jsstring :=
  fence_json ++ newline :: t ++ newline :: fence.

(** The same with the plain opening fence. *)
Definition fenced_plain (t : jsstring) : jsstring :=
  fence ++ newline :: t ++ newline :: fence.


(* ================================================================== *)
(** * JavaScript values *)
(* ================================================================== *)

(** What [JSON.parse] and [response.json()] return, plus [undefined],
    which reading an absent property yields.  An object is the list of
    its own properties, each key once; [lookup] takes the first. *)
Inductive value : Type :=
| Undefined
| Null
| Bool (b : bool)
| Num (z : Z)
| Str (s : jsstring)
| Arr (items : list value)
| Obj (fields : list (jsstring * value)).

(** [ToBoolean] *)
Definition truthy (v : value) : bool :=
  match v with
  | Undefined | Null => false
  | Bool b => b
  | Num z => negb (Z.eqb z 0)
  | Str s => match s with [] => false | _ :: _ => true end
  | Arr _ | Obj _ => true
  end.

Definition nullish (v : value) : bool :=
  match v with
  | Undefined | Null => true
  | _ => false
  end.

Fixpoint lookup (k : jsstring) (fields : list (jsstring * value))
  : option value :=
  match fields with
  | [] => None
  | (k', v) :: rest => if string_eqb k k' then Some v else lookup k rest
  end.

(** [v.k] for a value that is neither [null] nor [undefined].  The
    property names the component reads are plain identifiers (never an
    index or [length]), which arrays and primitives do not have. *)
Definition field (v : value) (k : jsstring) : value :=
  match v with
  | Obj fields =>
      match lookup k fields with
      | Some x => x
      | None => Undefined
      end
  | _ => Undefined
  end.

(** The payload has an own property [k]. *)
Definition has_field (v : value) (k : jsstring) : bool :=
  match v with
  | Obj fields =>
      match lookup k fields with
      | Some _ => true
      | None => false
      end
  | _ => false
  end.

(** [v?.k] *)
Definition opt_field (v : value) (k : jsstring) : value :=
  if nullish v then Undefined else field v k.

(** [v?.[0]] *)
Definition opt_first (v : value) : value :=
  match v with
  | Arr (x :: _) => x
  | Str (c :: _) => Str [c]
  | Obj fields =>
      match lookup (str "0") fields with
      | Some x => x
      | None => Undefined
      end
  | _ => Undefined
  end.

(** [a || b] *)
Definition or_else (a b : value) : value := if truthy a then a else b.

Definition show_N (n : N) : jsstring :=
  str (NilEmpty.string_of_uint (N.to_uint n)).

Definition show_Z (z : Z) : jsstring :=
  if (z <? 0)%Z then str "-" ++ show_N (Z.abs_N z) else show_N (Z.abs_N z).

Fixpoint join (sep : jsstring) (parts : list jsstring) : jsstring :=
  match parts with
  | [] => []
  | [p] => p
  | p :: rest => p ++ sep ++ join sep rest
  end.

(** [ToString], as a template literal applies it: exact for strings,
    booleans, [null], [undefined], integers below 10^21 in magnitude,
    and for objects and arrays that hold no object with an own [toString]
    key (for those the runtime throws) and no larger number (which it
    prints with an exponent). *)
Fixpoint ToString (v : value) : jsstring :=
  match v with
  | Undefined => str "undefined"
  | Null => str "null"
  | Bool true => str "true"
  | Bool false => str "false"
  | Num z => show_Z z
  | Str s => s
  | Arr items =>
      join [comma]
        ((fix each (l : list value) : list jsstring :=
            match l with
            | [] => []
            | x :: l' => (if nullish x then [] else ToString x) :: each l'
            end) items)
  | Obj _ => str "[object Object]"
  end.

(** ** Exceptions *)

(** What a [catch] clause of the component can receive: an [Error] the
    source throws itself, an error raised by the runtime, or the event a
    failed [FileReader] rejects with. *)
Inductive thrown : Type :=
| Error (message : jsstring)
| TypeError (message : jsstring)
| SyntaxError (message : jsstring)
| ProgressEvent.

(** [err.message] *)
Definition message_of (err : thrown) : value :=
  match err with
  | Error m | TypeError m | SyntaxError m => Str m
  | ProgressEvent => Undefined
  end.

Inductive completion (A : Type) : Type :=
| Normal (a : A)
| Throw (err : thrown).

Arguments Normal {A} a.
Arguments Throw {A} err.

Definition bind {A B : Type} (c : completion A) (k : A -> completion B)
  : completion B :=
  match c with
  | Normal a => k a
  | Throw err => Throw err
  end.

Notation "x <- c ;; k" := (bind c (fun x => k))
  (at level 61, c at next level, right associativity).

(** The message V8 gives to a property read on [null] or [undefined]. *)
Definition cannot_read (v : value) (k : jsstring) : jsstring :=
  str "Cannot read properties of " ++ ToString v
  ++ str " (reading '" ++ k ++ str "')".

(** [v.k] *)
Definition get (v : value) (k : jsstring) : completion value :=
  if nullish v then Throw (TypeError (cannot_read v k))
  else Normal (field v k).

(** * The names of the error kinds

    The source distinguishes its failures by the message of the [Error]
    it throws; these are the messages, under the names the design gives
    to the kinds. *)

Definition ConfigurationError : thrown :=
  Error (str "Gemini API key is not configured. Please add REACT_APP_GEMINI_API_KEY to your .env file").

Definition UpstreamError (status : N) (message : value) : thrown :=
  Error (str "API request failed with status " ++ show_N status
         ++ str ": " ++ ToString message).

Definition EmptyResponseError : thrown :=
  Error (str "No response from Gemini API").

Definition MalformedResponseError : thrown :=
  Error (str "Failed to parse API response. The response may not be valid JSON.").

Definition IncompleteDataError : thrown :=
  Error (str "Incomplete plant data received from API").

(* ================================================================== *)
(** * The platform and the programs that call it *)
(* ================================================================== *)

(** [file.type] and [file.size]; the content is only seen by the
    platform's reader. *)
Record File : Type := { file_type : jsstring; file_size : N }.

(** What [reader.readAsDataURL(file)] ends with: [onloadend] after a
    successful read, with [reader.result] a data URL, or [onerror]. *)
Inductive read_result : Type :=
| Loaded (dataURL : jsstring)
| ReadError.

(** The varying part of the request of lines 60-114: the address, which
    carries the key, and the [inline_data] part.  The instruction text and
    the generation parameters are constants. *)
Record Request : Type :=
  { url : jsstring; mime_type : jsstring; data : value }.

(** What [response.json()] settles with. *)
Inductive json_result : Type :=
| Parsed (v : value)
| Unparseable (message : jsstring).

Record Response : Type := { status : N; body : json_result }.

(** [response.ok] *)
Definition ok (response : Response) : bool :=
  ((200 <=? status response) && (status response <=? 299))%N.

(** What [fetch] settles with. *)
Inductive fetch_result : Type :=
| Responded (response : Response)
| NetworkFailure (message : jsstring).

(** A program that awaits the platform. *)
Inductive io (A : Type) : Type :=
| Ret (a : A)
| ReadAsDataURL (file : File) (k : read_result -> io A)
| Fetch (request : Request) (k : fetch_result -> io A)
| JSONparse (text : jsstring) (k : option value -> io A).

Arguments Ret {A} a.
Arguments ReadAsDataURL {A} file k.
Arguments Fetch {A} request k.
Arguments JSONparse {A} text k.

(** One way the platform can answer. [JSON_parse] gives [None] where
    [JSON.parse] throws. *)
Record Platform : Type :=
  { readAsDataURL : File -> read_result;
    fetch : Request -> fetch_result;
    JSON_parse : jsstring -> option value }.

Inductive call : Type :=
| FileRead (file : File)
| NetworkCall (request : Request)
| Decode (text : jsstring).

(** Running a program against a platform: the calls made, in order, and
    the result. *)
Fixpoint run {A : Type} (p : Platform) (prog : io A) : list call * A :=
  match prog with
  | Ret a => ([], a)
  | ReadAsDataURL file k =>
      let (log, a) := run p (k (readAsDataURL p file)) in
      (FileRead file :: log, a)
  | Fetch request k =>
      let (log, a) := run p (k (fetch p request)) in
      (NetworkCall request :: log, a)
  | JSONparse text k =>
      let (log, a) := run p (k (JSON_parse p text)) in
      (Decode text :: log, a)
  end.

Definition is_network_call (c : call) : bool :=
  match c with
  | NetworkCall _ => true
  | _ => false
  end.

(** The network calls among the calls of a run. *)
Definition network_calls {A : Type} (p : Platform) (prog : io A)
  : list call :=
  filter is_network_call (fst (run p prog)).

(* ================================================================== *)
(** * [identifyPlant] *)
(* ================================================================== *)

(** How an attempt ends: [setPlantInfo(plantData)], the early [return]
    after [setError(plantData.error)], or the [catch] clause. *)
Inductive outcome : Type :=
| Identified (plantData : value)
| CouldNotIdentify (message : value)
| Failed (err : thrown).

(** [process.env.REACT_APP_GEMINI_API_KEY]: a string or [undefined]. *)
Definition env_value (k : option jsstring) : value :=
  match k with
  | Some s => Str s
  | None => Undefined
  end.

(** [!GEMINI_API_KEY || GEMINI_API_KEY === ''] *)
Definition key_missing (GEMINI_API_KEY : option jsstring) : bool :=
  negb (truthy (env_value GEMINI_API_KEY))
  || match GEMINI_API_KEY with
     | Some [] => true
     | _ => false
     end.

Definition apiUrl (GEMINI_API_KEY : option jsstring) : jsstring :=
  str "https://generativelanguage.googleapis.com/v1/models/gemini-2.5-flash:generateContent?key="
  ++ ToString (env_value GEMINI_API_KEY).

Fixpoint until_comma (s : jsstring) : jsstring :=
  match s with
  | [] => []
  | c :: rest => if N.eqb c comma then [] else c :: until_comma rest
  end.

(** [s.split(',')[1]] *)
Fixpoint split_comma_1 (s : jsstring) : value :=
  match s with
  | [] => Undefined
  | c :: rest => if N.eqb c comma then Str (until_comma rest)
                 else split_comma_1 rest
  end.

(** Lines 152-161: the checks on the decoded completion. *)
Definition validate (plantData : value) : outcome :=
  match get plantData (str "error") with
  | Throw err => Failed err
  | Normal e =>
      if truthy e then CouldNotIdentify e
      else if negb (truthy (field plantData (str "name")))
              || negb (truthy (field plantData (str "scientificName")))
           then Failed IncompleteDataError
           else Identified plantData
  end.

(** Lines 136-161: the completion text is cleaned, decoded and checked. *)
Definition parseResponse (textResponse : jsstring) : io outcome :=
  JSONparse (cleanResponse textResponse)
    (fun decoded =>
       match decoded with
       | None => Ret (Failed MalformedResponseError)
       | Some plantData => Ret (validate plantData)
       end).

(** Line 128: [data.candidates?.[0]?.content?.parts?.[0]?.text] *)
Definition extractText (data : value) : completion value :=
  candidates <- get data (str "candidates") ;;
  Normal
    (opt_field
       (opt_first
          (opt_field (opt_field (opt_first candidates) (str "content"))
             (str "parts")))
       (str "text")).

(** Lines 128-161, from the decoded envelope on. *)
Definition handleEnvelope (data : value) : io outcome :=
  match extractText data with
  | Throw err => Ret (Failed err)
  | Normal textResponse =>
      if negb (truthy textResponse) then Ret (Failed EmptyResponseError)
      else
        match textResponse with
        | Str text => parseResponse text
        | _ => Ret (Failed (TypeError (str "textResponse.trim is not a function")))
        end
  end.

(** Lines 118-122: the response is not [ok]. *)
Definition handleFailure (response : Response) : thrown :=
  let errorData :=
    match body response with
    | Parsed v => v
    | Unparseable _ => Obj []
    end in
  match get errorData (str "error") with
  | Throw err => err
  | Normal e =>
      UpstreamError (status response)
        (or_else (opt_field e (str "message")) (Str (str "Unknown error")))
  end.

(** The body of [identifyPlant] between [setLoading(true)] and the
    [catch]/[finally] clauses (lines 50-161). *)
Definition identifyPlant (GEMINI_API_KEY : option jsstring)
  (file : option File) : io outcome :=
  if key_missing GEMINI_API_KEY then Ret (Failed ConfigurationError)
  else
    match file with
    | None =>
        Ret (Failed (TypeError (str "Failed to execute 'readAsDataURL' on 'FileReader': parameter 1 is not of type 'Blob'.")))
    | Some f =>
        ReadAsDataURL f (fun r =>
          match r with
          | ReadError => Ret (Failed ProgressEvent)
          | Loaded dataURL =>
              let base64Image := split_comma_1 dataURL in
              Fetch {| url := apiUrl GEMINI_API_KEY;
                       mime_type := file_type f;
                       data := base64Image |}
                (fun answer =>
                   match answer with
                   | NetworkFailure m => Ret (Failed (TypeError m))
                   | Responded response =>
                       if negb (ok response)
                       then Ret (Failed (handleFailure response))
                       else
                         match body response with
                         | Unparseable m => Ret (Failed (SyntaxError m))
                         | Parsed data => handleEnvelope data
                         end
                   end)
          end)
    end.

(* ================================================================== *)
(** * The state of the component *)
(* ================================================================== *)

(** The five [useState] cells (lines 5-9); [null] is [None] or [Null]. *)
Record State : Type :=
  { selectedImage : option File;
    imagePreview : option jsstring;
    plantInfo : value;
    loading : bool;
    error : value }.

Definition initial : State :=
  {| selectedImage := None; imagePreview := None; plantInfo := Null;
     loading := false; error := Null |}.

Definition setSelectedImage (x : option File) (st : State) : State :=
  {| selectedImage := x; imagePreview := imagePreview st;
     plantInfo := plantInfo st; loading := loading st; error := error st |}.

Definition setImagePreview (x : option jsstring) (st : State) : State :=
  {| selectedImage := selectedImage st; imagePreview := x;
     plantInfo := plantInfo st; loading := loading st; error := error st |}.

Definition setPlantInfo (x : value) (st : State) : State :=
  {| selectedImage := selectedImage st; imagePreview := imagePreview st;
     plantInfo := x; loading := loading st; error := error st |}.

Definition setLoading (x : bool) (st : State) : State :=
  {| selectedImage := selectedImage st; imagePreview := imagePreview st;
     plantInfo := plantInfo st; loading := x; error := error st |}.

Definition setError (x : value) (st : State) : State :=
  {| selectedImage := selectedImage st; imagePreview := imagePreview st;
     plantInfo := plantInfo st; loading := loading st; error := x |}.

(** Lines 46-47. *)
Definition identifyPlant_begin (st : State) : State :=
  setError Null (setLoading true st).

(** [`Failed to identify plant: ${err.message}`] *)
Definition failure_message (err : thrown) : jsstring :=
  str "Failed to identify plant: " ++ ToString (message_of err).

(** Lines 152-168: the updates an attempt makes when it ends. *)
Definition identifyPlant_settle (o : outcome) (st : State) : State :=
  setLoading false
    match o with
    | Identified plantData => setPlantInfo plantData st
    | CouldNotIdentify e => setError e st
    | Failed err => setError (Str (failure_message err)) st
    end.

(** An attempt that runs to its end against platform [p], as one
    transition of the state. *)
Definition attempt (GEMINI_API_KEY : option jsstring) (p : Platform)
  (file : option File) (st : State) : State :=
  identifyPlant_settle (snd (run p (identifyPlant GEMINI_API_KEY file)))
    (identifyPlant_begin st).

(** Lines 171-176. *)
Definition resetUpload (st : State) : State :=
  setError Null (setPlantInfo Null (setImagePreview None
    (setSelectedImage None st))).

(* ================================================================== *)
(** * Rendering *)
(* ================================================================== *)

(** What the JSX expression [{x && <el/>}] contributes: the element when
    [x] is truthy; otherwise React prints [x] itself when it is a number
    or a string, and prints nothing for [false], [null], [undefined]. *)
Inductive node (A : Type) : Type :=
| Omitted
| Printed (text : jsstring)
| Rendered (a : A).

Arguments Omitted {A}.
Arguments Printed {A} text.
Arguments Rendered {A} a.

Definition and_then {A : Type} (x : value) (element : A) : node A :=
  if truthy x then Rendered element
  else
    match x with
    | Num _ | Str _ => Printed (ToString x)
    | _ => Omitted
    end.

(** Lines 307-314: the badge [{plantInfo.confidence}% confidence]. *)
Definition confidenceIndicator (plantInfo : value) : node value :=
  and_then (field plantInfo (str "confidence"))
    (field plantInfo (str "confidence")).

(** Lines 379-384: the safety note showing [plantInfo.toxicity]. *)
Definition safetyNote (plantInfo : value) : node value :=
  and_then (field plantInfo (str "toxicity"))
    (field plantInfo (str "toxicity")).

(** Lines 371-376. *)
Definition growthRateCard (plantInfo : value) : node value :=
  and_then (field plantInfo (str "growthRate"))
    (field plantInfo (str "growthRate")).

(** Lines 327-364: the four rows of the care guide. *)
Record CareGuide : Type :=
  { light : value; water : value; humidity : value; temperature : value }.

Definition careGuide (plantInfo : value) : node CareGuide :=
  let care := field plantInfo (str "care") in
  and_then care
    {| light := field care (str "light");
       water := field care (str "water");
       humidity := field care (str "humidity");
       temperature := field care (str "temperature") |}.

(** Lines 300-306: [plantInfo.commonNames?.map(...)], one chip per name. *)
Definition chips (plantInfo : value) : completion (list value) :=
  match field plantInfo (str "commonNames") with
  | Undefined | Null => Normal []
  | Arr names => Normal names
  | _ => Throw (TypeError (str "plantInfo.commonNames?.map is not a function"))
  end.

(** Lines 290-385: the panel of an identified plant. *)
Record Details : Type :=
  { shown_name : value;
    shown_scientificName : value;
    shown_commonNames : list value;
    confidence_badge : node value;
    about : value;
    care_guide : node CareGuide;
    family : value;
    growth_rate : node value;
    safety_note : node value }.

(** ** Values as React children

    [{v}] inside an element: React prints strings and numbers, prints
    nothing for booleans, [null] and [undefined], takes an array as a list
    of children, and throws its error for a plain object, the first one
    it meets. *)
Fixpoint invalid_child (v : value) : option (list (jsstring * value)) :=
  match v with
  | Obj fields => Some fields
  | Arr items =>
      (fix first (l : list value) : option (list (jsstring * value)) :=
         match l with
         | [] => None
         | x :: l' =>
             match invalid_child x with
             | Some o => Some o
             | None => first l'
             end
         end) items
  | _ => None
  end.

Definition renderable (v : value) : bool :=
  match invalid_child v with
  | None => true
  | Some _ => false
  end.

(** The text of the error in React's development build. *)
Definition invalid_child_message (fields : list (jsstring * value))
  : jsstring :=
  str "Objects are not valid as a React child (found: object with keys {"
  ++ join (str ", ") (List.map fst fields)
  ++ str "}). If you meant to render a collection of children, use an array instead.".

(** [{v}] *)
Definition child (v : value) : completion value :=
  match invalid_child v with
  | None => Normal v
  | Some fields => Throw (Error (invalid_child_message fields))
  end.

Fixpoint children (l : list value) : completion (list value) :=
  match l with
  | [] => Normal []
  | x :: l' => x' <- child x ;; rest <- children l' ;; Normal (x' :: rest)
  end.

(** The value an element of a conditional shows is a child of it. *)
Definition node_child (n : node value) : completion (node value) :=
  match n with
  | Rendered v => v' <- child v ;; Normal (Rendered v')
  | _ => Normal n
  end.

Definition care_child (n : node CareGuide) : completion (node CareGuide) :=
  match n with
  | Rendered g =>
      l <- child (light g) ;;
      w <- child (water g) ;;
      h <- child (humidity g) ;;
      t <- child (temperature g) ;;
      Normal (Rendered {| light := l; water := w; humidity := h;
                          temperature := t |})
  | _ => Normal n
  end.

(** The panel of an identified plant: the JSX expression is evaluated,
    where [commonNames?.map] can throw, and then React takes the children
    in document order. *)
Definition details (plantInfo : value) : completion Details :=
  names <- chips plantInfo ;;
  name <- child (field plantInfo (str "name")) ;;
  scientificName <- child (field plantInfo (str "scientificName")) ;;
  names <- children names ;;
  badge <- node_child (confidenceIndicator plantInfo) ;;
  description <- child (field plantInfo (str "description")) ;;
  care <- care_child (careGuide plantInfo) ;;
  fam <- child (field plantInfo (str "family")) ;;
  growth <- node_child (growthRateCard plantInfo) ;;
  note <- node_child (safetyNote plantInfo) ;;
  Normal
    {| shown_name := name;
       shown_scientificName := scientificName;
       shown_commonNames := names;
       confidence_badge := badge;
       about := description;
       care_guide := care;
       family := fam;
       growth_rate := growth;
       safety_note := note |}.

Definition node_renderable (n : node value) : bool :=
  match n with
  | Rendered v => renderable v
  | _ => true
  end.

(** The payload can be shown: [commonNames] is absent, [null] or an
    array, and no value the panel displays holds an object. *)
Definition displayable (plantInfo : value) : bool :=
  match field plantInfo (str "commonNames") with
  | Undefined | Null => true
  | Arr names => forallb renderable names
  | _ => false
  end
  && renderable (field plantInfo (str "name"))
  && renderable (field plantInfo (str "scientificName"))
  && node_renderable (confidenceIndicator plantInfo)
  && renderable (field plantInfo (str "description"))
  && match careGuide plantInfo with
     | Rendered g =>
         renderable (light g) && renderable (water g)
         && renderable (humidity g) && renderable (temperature g)
     | _ => true
     end
  && renderable (field plantInfo (str "family"))
  && node_renderable (growthRateCard plantInfo)
  && node_renderable (safetyNote plantInfo).

(** Lines 270-386: [loading ? ... : error ? ... : plantInfo ? ... : null]. *)
Inductive Panel : Type :=
| Analyzing
| Problem (message : value)
| Result (d : Details)
| Blank.

Definition panel (st : State) : completion Panel :=
  if loading st then Normal Analyzing
  else if truthy (error st)
       then m <- child (error st) ;; Normal (Problem m)
  else if truthy (plantInfo st)
       then d <- details (plantInfo st) ;; Normal (Result d)
       else Normal Blank.

(** [imagePreview] as a condition: a non-empty string. *)
Definition preview_shown (st : State) : bool :=
  match imagePreview st with
  | Some (_ :: _) => true
  | _ => false
  end.

(** Lines 199-389: the upload prompt, or the photo next to the panel. *)
Inductive View : Type :=
| UploadPrompt
| Analysis (photo : jsstring) (p : Panel).

Definition render (st : State) : completion View :=
  match imagePreview st with
  | Some (c :: s) => p <- panel st ;; Normal (Analysis (c :: s) p)
  | _ => Normal UploadPrompt
  end.

(** The controls a render offers: the file input (line 226), the reset
    button (line 254) and the retry button (line 283). *)
Definition input_offered (st : State) : bool := negb (preview_shown st).

Definition reset_offered (st : State) : bool := preview_shown st.

Definition retry_offered (st : State) : bool :=
  preview_shown st && negb (loading st) && truthy (error st).

(* ================================================================== *)
(** * The component as a transition system *)
(* ================================================================== *)

(** The state together with what is still awaited: the identification
    attempts in flight and the preview readers of [handleImageUpload]. *)
Record World : Type :=
  { ui : State;
    attempts : list (io outcome);
    previews : list File }.

Definition boot : World :=
  {| ui := initial; attempts := []; previews := [] |}.

Fixpoint remove_nth {A : Type} (i : nat) (l : list A) : list A :=
  match l, i with
  | [], _ => []
  | _ :: rest, O => rest
  | x :: rest, S j => x :: remove_nth j rest
  end.

Inductive event : Type :=
| SelectFile (file : option File)
| PreviewLoaded (i : nat) (result : option jsstring)
| Settled (i : nat) (p : Platform)
| TryAgain
| ResetClicked.

(** A call of [identifyPlant]: it runs up to its first [await]; an attempt
    that needs no platform call ends within the call. *)
Definition launch (GEMINI_API_KEY : option jsstring) (file : option File)
  (w : World) : World :=
  let st := identifyPlant_begin (ui w) in
  match identifyPlant GEMINI_API_KEY file with
  | Ret o =>
      {| ui := identifyPlant_settle o st;
         attempts := attempts w; previews := previews w |}
  | prog =>
      {| ui := st; attempts := attempts w ++ [prog];
         previews := previews w |}
  end.

(** Lines 14-31. *)
Definition handleImageUpload (GEMINI_API_KEY : option jsstring)
  (file : option File) (w : World) : World :=
  match file with
  | None => w
  | Some f =>
      launch GEMINI_API_KEY (Some f)
        {| ui := setPlantInfo Null (setError Null
                   (setSelectedImage (Some f) (ui w)));
           attempts := attempts w;
           previews := previews w ++ [f] |}
  end.

(** One event; [None] when the render does not offer the control or
    nothing of that index is awaited. *)
Definition step (GEMINI_API_KEY : option jsstring) (w : World) (e : event)
  : option World :=
  match e with
  | SelectFile file =>
      if input_offered (ui w)
      then Some (handleImageUpload GEMINI_API_KEY file w)
      else None
  | PreviewLoaded i result =>
      match nth_error (previews w) i with
      | Some _ =>
          Some {| ui := setImagePreview result (ui w);
                  attempts := attempts w;
                  previews := remove_nth i (previews w) |}
      | None => None
      end
  | Settled i p =>
      match nth_error (attempts w) i with
      | Some prog =>
          Some {| ui := identifyPlant_settle (snd (run p prog)) (ui w);
                  attempts := remove_nth i (attempts w);
                  previews := previews w |}
      | None => None
      end
  | TryAgain =>
      if retry_offered (ui w)
      then Some (launch GEMINI_API_KEY (selectedImage (ui w)) w)
      else None
  | ResetClicked =>
      if reset_offered (ui w)
      then Some {| ui := resetUpload (ui w);
                   attempts := attempts w; previews := previews w |}
      else None
  end.

Fixpoint steps (GEMINI_API_KEY : option jsstring) (w : World)
  (es : list event) : option World :=
  match es with
  | [] => Some w
  | e :: rest =>
      match step GEMINI_API_KEY w e with
      | Some w' => steps GEMINI_API_KEY w' rest
      | None => None
      end
  end.

(** The states the component can be in. *)
Definition reachable (GEMINI_API_KEY : option jsstring) (w : World) : Prop :=
  exists es, steps GEMINI_API_KEY boot es = Some w.

(** Attempts do not overlap: a file is only selected while no attempt is
    in flight. *)
Definition serial_event (w : World) (e : event) : bool :=
  match e with
  | SelectFile (Some _) =>
      match attempts w with
      | [] => true
      | _ :: _ => false
      end
  | _ => true
  end.

Fixpoint serial (GEMINI_API_KEY : option jsstring) (w : World)
  (es : list event) : bool :=
  match es with
  | [] => true
  | e :: rest =>
      serial_event w e
      && match step GEMINI_API_KEY w e with
         | Some w' => serial GEMINI_API_KEY w' rest
         | None => true
         end
  end.

(** How many of [loading], [error], [plantInfo] the state holds. *)
Definition held (st : State) : nat :=
  (if loading st then 1 else 0)
  + (if nullish (error st) then 0 else 1)
  + (if nullish (plantInfo st) then 0 else 1).

Definition exclusive (st : State) : Prop := held st <= 1.

(** What holds between events when attempts do not overlap: either no
    attempt is in flight and the state is settled, or one is and the
    state only shows that it is loading. *)
Definition settled_or_waiting (w : World) : Prop :=
  match attempts w with
  | [] => loading (ui w) = false /\ exclusive (ui w)
  | [_] =>
      loading (ui w) = true
      /\ nullish (error (ui w)) = true
      /\ nullish (plantInfo (ui w)) = true
  | _ :: _ :: _ => False
  end.

(* ================================================================== *)
(** * Sample data *)
(* ================================================================== *)

Definition quote_mark : char := 34%N.

Definition quoted (s : jsstring) : jsstring := quote_mark :: s ++ [quote_mark].

Definition photo : File :=
  {| file_type := str "image/png"; file_size := 20480%N |}.

Definition photo_url : jsstring := str "data:image/png;base64,iVBORw0KGgo=".

(** The envelope the service wraps a completion text in. *)
Definition envelope (text : jsstring) : value :=
  Obj [(str "candidates",
        Arr [Obj [(str "content",
                   Obj [(str "parts", Arr [Obj [(str "text", Str text)]])])]])].

(** A decoder that knows one text. *)
Definition decoder_for (text : jsstring) (v : value)
  : jsstring -> option value :=
  fun s => if string_eqb s text then Some v else None.

(** A platform on which the photo is read, the service answers with
    [answer], and [text] decodes to [v]. *)
Definition platform_with (answer : fetch_result) (text : jsstring)
  (v : value) : Platform :=
  {| readAsDataURL := fun _ => Loaded photo_url;
     fetch := fun _ => answer;
     JSON_parse := decoder_for text v |}.

(** The service answers 200 with the completion [text]. *)
Definition completes (text : jsstring) : fetch_result :=
  Responded {| status := 200%N; body := Parsed (envelope text) |}.

Definition api_key : option jsstring := Some (str "AIzaSy-sample").

Definition could_not_identify : jsstring :=
  str "Could not identify plant. Please upload a clearer image of a plant.".

(** [{"error": "Could not identify plant. ..."}] *)
Definition unidentified : value := Obj [(str "error", Str could_not_identify)].

Definition unidentified_text : jsstring :=
  str "{" ++ quoted (str "error") ++ str ": " ++ quoted could_not_identify
  ++ str "}".

(** [{"name": "Monstera Deliciosa", "scientificName": "Monstera deliciosa",
     "confidence": 92}] *)
Definition monstera : value :=
  Obj [(str "name", Str (str "Monstera Deliciosa"));
       (str "scientificName", Str (str "Monstera deliciosa"));
       (str "confidence", Num 92)].

Definition monstera_text : jsstring :=
  str "{" ++ quoted (str "name") ++ str ": "
  ++ quoted (str "Monstera Deliciosa") ++ str ", "
  ++ quoted (str "scientificName") ++ str ": "
  ++ quoted (str "Monstera deliciosa") ++ str ", "
  ++ quoted (str "confidence") ++ str ": 92}".

(** [{"name": "Rose"}] *)
Definition only_name : value := Obj [(str "name", Str (str "Rose"))].

(** [{"error": E, "name": "Rose", "scientificName": "Rosa"}] with [E]
    the empty string. *)
Definition silent_error : value :=
  Obj [(str "error", Str []);
       (str "name", Str (str "Rose"));
       (str "scientificName", Str (str "Rosa"))].

(** [{"name": "Rose", "scientificName": "Rosa"}] *)
Definition rose : value :=
  Obj [(str "name", Str (str "Rose"));
       (str "scientificName", Str (str "Rosa"))].

(** [{"error": E}] with [E] the empty string. *)
Definition empty_error : value := Obj [(str "error", Str [])].

(** [{"error": {"code": 429, "message": "Resource has been exhausted"}}] *)
Definition quota_exceeded : value :=
  Obj [(str "error",
        Obj [(str "code", Num 429);
             (str "message", Str (str "Resource has been exhausted"))])].

(** The service answers 429 with the error body of the API. *)
Definition rate_limited : fetch_result :=
  Responded {| status := 429%N; body := Parsed quota_exceeded |}.

(** The service answers 429 with the body [null]. *)
Definition rate_limited_null : fetch_result :=
  Responded {| status := 429%N; body := Parsed Null |}.

(** A photo is selected, the X button is clicked while the attempt is in
    flight, a photo is selected again; then the first attempt is answered
    with a plant and the second with a 429. *)
Definition overlapping_attempts : list event :=
  [ SelectFile (Some photo);
    PreviewLoaded 0 (Some photo_url);
    ResetClicked;
    SelectFile (Some photo);
    Settled 0 (platform_with (completes monstera_text) monstera_text monstera);
    Settled 0 (platform_with rate_limited [] Null) ].

(** A photo is selected, the service is rate limited, the user tries
    again and the plant is identified. *)
Definition retry_after_failure : list event :=
  [ SelectFile (Some photo);
    PreviewLoaded 0 (Some photo_url);
    Settled 0 (platform_with rate_limited [] Null);
    TryAgain;
    Settled 0 (platform_with (completes monstera_text) monstera_text monstera) ].

(* ================================================================== *)
(** * Predicates on texts, outcomes and states *)
(* ================================================================== *)

(** [m] occurs in [s]. *)
Definition occurs (m s : jsstring) : Prop := exists a b, s = a ++ m ++ b.

(** The request [identifyPlant] sends for file [f] read as [dataURL]. *)
Definition request_for (GEMINI_API_KEY : option jsstring) (f : File)
  (dataURL : jsstring) : Request :=
  {| url := apiUrl GEMINI_API_KEY;
     mime_type := file_type f;
     data := split_comma_1 dataURL |}.

(** An outcome that shows something: a stored payload has its two names
    and no error to report, a reported error is truthy. *)
Definition conclusive (o : outcome) : Prop :=
  match o with
  | Identified d =>
      truthy (field d (str "name")) = true
      /\ truthy (field d (str "scientificName")) = true
      /\ truthy (field d (str "error")) = false
  | CouldNotIdentify e => truthy e = true
  | Failed _ => True
  end.

(** The result, when there is one, has its two names; the error, when
    there is one, is truthy. *)
Definition well_formed (st : State) : Prop :=
  (plantInfo st = Null
   \/ truthy (field (plantInfo st) (str "name")) = true
      /\ truthy (field (plantInfo st) (str "scientificName")) = true)
  /\ (error st = Null \/ truthy (error st) = true).

(** Every attempt in flight is a call of [identifyPlant]. *)
Definition launched (GEMINI_API_KEY : option jsstring) (w : World) : Prop :=
  Forall (fun a => exists file, a = identifyPlant GEMINI_API_KEY file)
    (attempts w).

(** A platform on which no file can be read. *)
Definition unreadable : Platform :=
  {| readAsDataURL := fun _ => ReadError;
     fetch := fun _ => NetworkFailure (str "Failed to fetch");
     JSON_parse := fun _ => None |}.

(** A photo is selected and the X button is clicked before the service
    has answered. *)
Definition reset_while_loading : list event :=
  [ SelectFile (Some photo);
    PreviewLoaded 0 (Some photo_url);
    ResetClicked ].

(** What holds between events under every interleaving: the attempts in
    flight are calls of [identifyPlant], the state is well formed, and
    the state is loading only while an attempt is in flight. *)
Definition orderly (GEMINI_API_KEY : option jsstring) (w : World) : Prop :=
  launched GEMINI_API_KEY w
  /\ well_formed (ui w)
  /\ (attempts w = [] -> loading (ui w) = false).

(** [{"name": "Rose", "scientificName": "Rosa", "commonNames": "Dog rose"}] *)
Definition nicknamed : value :=
  Obj [(str "name", Str (str "Rose"));
       (str "scientificName", Str (str "Rosa"));
       (str "commonNames", Str (str "Dog rose"))].

(** A photo was selected and its preview is shown while the attempt is
    in flight; then the X button is clicked; then the service answers. *)
Definition waiting_with_preview : World :=
  {| ui := setImagePreview (Some photo_url)
             (identifyPlant_begin (setSelectedImage (Some photo) initial));
     attempts := [identifyPlant api_key (Some photo)];
     previews := [] |}.

Definition waiting_after_reset : World :=
  {| ui := resetUpload (ui waiting_with_preview);
     attempts := attempts waiting_with_preview;
     previews := [] |}.

Definition answered_after_reset : World :=
  {| ui := identifyPlant_settle
             (snd (run (platform_with (completes monstera_text) monstera_text
                          monstera)
                     (identifyPlant api_key (Some photo))))
             (resetUpload (ui waiting_with_preview));
     attempts := [];
     previews := [] |}.

(** The message a response that is not [ok] is reported with, where the
    template literal of line 121 prints a string as it is: the body is not
    JSON, or it is a JSON value other than [null] whose [error.message] is
    a string or is falsy.  [None] for the other bodies. *)
Definition upstream_text (response : Response) : option jsstring :=
  match body response with
  | Unparseable _ => Some (str "Unknown error")
  | Parsed v =>
      if nullish v then None
      else
        let m := opt_field (field v (str "error")) (str "message") in
        if truthy m
        then match m with
             | Str msg => Some msg
             | _ => None
             end
        else Some (str "Unknown error")
  end.

(** The service answers 500 with a page that is not JSON. *)
Definition server_error : fetch_result :=
  Responded {| status := 500%N;
               body := Unparseable (str "Unexpected token < in JSON at position 0") |}.

(* ================================================================== *)
(** * Strings: prefixes, trimming, marker removal *)
(* ================================================================== *)

Lemma string_eqb_eq (a b : jsstring) : string_eqb a b = true <-> a = b.
Proof.
  revert b; induction a as [|x a IH]; intros [|y b]; simpl;
    try (split; [discriminate | discriminate]); try tauto.
  rewrite andb_true_iff, N.eqb_eq, IH.
  split; [intros [-> ->]; reflexivity | intros H; inversion H; auto].
Qed.

Lemma string_eqb_refl (a : jsstring) : string_eqb a a = true.
Proof. apply string_eqb_eq; reflexivity. Qed.

Lemma starts_with_app (m r : jsstring) : starts_with m (m ++ r) = true.
Proof.
  induction m as [|x m IH]; simpl; [reflexivity|].
  now rewrite N.eqb_refl, IH.
Qed.

Lemma starts_with_split (m s : jsstring) :
  starts_with m s = true -> s = m ++ skipn (length m) s.
Proof.
  revert s; induction m as [|x m IH]; intros s H; simpl in *; [reflexivity|].
  destruct s as [|y s]; [discriminate|].
  apply andb_true_iff in H as [Hx Hm].
  apply N.eqb_eq in Hx; subst y.
  f_equal; apply IH, Hm.
Qed.

Lemma starts_with_tail (m s tail : jsstring) :
  foreign_head m tail -> starts_with m (s ++ tail) = starts_with m s.
Proof.
  revert s; induction m as [|x m IH]; intros s Hf; [reflexivity|].
  destruct s as [|y s]; simpl.
  - destruct tail as [|d tail]; [reflexivity|].
    simpl in Hf.
    destruct (N.eqb_spec x d) as [->|_]; [exfalso; apply Hf; now left|reflexivity].
  - f_equal; apply IH.
    destruct tail; simpl in *; [exact I|tauto].
Qed.

(** ** [trim] *)

Lemma trimStart_whitespace (a s : jsstring) :
  all_whitespace a -> trimStart (a ++ s) = trimStart s.
Proof.
  induction 1 as [|c a Hc _ IH]; simpl; [reflexivity|].
  now rewrite Hc.
Qed.

Lemma trimStart_decompose (s : jsstring) :
  exists a, all_whitespace a /\ s = a ++ trimStart s.
Proof.
  induction s as [|c s [a [Ha Heq]]]; simpl.
  - exists []; split; [constructor|reflexivity].
  - destruct (is_whitespace c) eqn:Hc.
    + exists (c :: a); split; [constructor; assumption|].
      simpl; congruence.
    + exists []; split; [constructor|reflexivity].
Qed.

Lemma trimStart_app_tail (s b : jsstring) :
  all_whitespace b ->
  trimStart (s ++ b) = match trimStart s with
                       | [] => []
                       | _ :: _ => trimStart s ++ b
                       end.
Proof.
  intros Hb; induction s as [|c s IH]; simpl.
  - rewrite <- (app_nil_r b) at 1.
    now rewrite trimStart_whitespace.
  - destruct (is_whitespace c); [exact IH|reflexivity].
Qed.

Lemma all_whitespace_rev (b : jsstring) :
  all_whitespace b -> all_whitespace (rev b).
Proof. apply Forall_rev. Qed.

Lemma trimEnd_whitespace (s b : jsstring) :
  all_whitespace b -> trimEnd (s ++ b) = trimEnd s.
Proof.
  intros Hb; unfold trimEnd.
  now rewrite rev_app_distr, trimStart_whitespace by now apply all_whitespace_rev.
Qed.

Lemma trimEnd_decompose (s : jsstring) :
  exists b, all_whitespace b /\ s = trimEnd s ++ b.
Proof.
  destruct (trimStart_decompose (rev s)) as [a [Ha Heq]].
  exists (rev a); split; [now apply all_whitespace_rev|].
  unfold trimEnd.
  rewrite <- rev_app_distr, <- Heq.
  now rewrite rev_involutive.
Qed.

Lemma trimEnd_nil : trimEnd [] = [].
Proof. reflexivity. Qed.

Lemma trim_decompose (s : jsstring) :
  exists a b, all_whitespace a /\ all_whitespace b /\ s = a ++ trim s ++ b.
Proof.
  destruct (trimStart_decompose s) as [a [Ha Hs]].
  destruct (trimEnd_decompose (trimStart s)) as [b [Hb Ht]].
  exists a, b; repeat split; try assumption.
  unfold trim; congruence.
Qed.

Lemma trim_surrounded (a s b : jsstring) :
  all_whitespace a -> all_whitespace b -> trim (a ++ s ++ b) = trim s.
Proof.
  intros Ha Hb; unfold trim.
  rewrite trimStart_whitespace by assumption.
  rewrite trimStart_app_tail by assumption.
  destruct (trimStart s) eqn:E; [reflexivity|].
  now rewrite trimEnd_whitespace.
Qed.

Lemma trim_tail (s b : jsstring) :
  all_whitespace b -> trim (s ++ b) = trim s.
Proof. intros Hb; exact (trim_surrounded [] s b (Forall_nil _) Hb). Qed.

(** ** Removing a marker *)

Section Marker.

Variable m : jsstring.
Hypothesis m_nonempty : m <> [].

Lemma remove_marker_from_skipn (k : nat) (s : jsstring) :
  remove_marker_from m k s = remove_marker m (skipn k s).
Proof.
  revert k; induction s as [|c s IH]; intros [|k]; try reflexivity.
  simpl remove_marker_from at 1; simpl skipn.
  apply IH.
Qed.

Lemma remove_marker_nil : remove_marker m [] = [].
Proof. reflexivity. Qed.

(** No match at the head: the code unit is kept. *)
Lemma remove_marker_keep (c : char) (s : jsstring) :
  starts_with m (c :: s) = false ->
  remove_marker m (c :: s) = c :: remove_marker m s.
Proof.
  intros H; unfold remove_marker; simpl remove_marker_from.
  now rewrite H.
Qed.

(** A match at the head: the marker goes, with the newline after it. *)
Lemma remove_marker_match (r : jsstring) :
  remove_marker m (m ++ r) = remove_marker m (drop_newline r).
Proof.
  pose proof remove_marker_from_skipn as Hskip.
  destruct m as [|x m']; [contradiction|].
  unfold remove_marker.
  change ((x :: m') ++ r) with (x :: (m' ++ r)).
  simpl remove_marker_from.
  rewrite N.eqb_refl, starts_with_app; simpl andb; cbv iota.
  rewrite skipn_app, skipn_all, Nat.sub_diag; simpl app; simpl skipn.
  rewrite Hskip.
  destruct r as [|d r]; simpl drop_newline.
  - simpl pred. now rewrite skipn_app, skipn_all, Nat.sub_diag.
  - destruct (N.eqb d newline); simpl pred.
    + rewrite skipn_app.
      replace (S (length m') - length m') with 1 by lia.
      rewrite skipn_all2 by lia; reflexivity.
    + now rewrite skipn_app, skipn_all, Nat.sub_diag.
Qed.

(** The three cases of a scan. *)
Lemma scan_cases (s : jsstring) :
  s = []
  \/ (exists r, s = m ++ r /\ length (drop_newline r) < length s)
  \/ (exists c s', s = c :: s' /\ starts_with m s = false).
Proof.
  destruct s as [|c s']; [now left|right].
  destruct (starts_with m (c :: s')) eqn:E.
  - left. exists (skipn (length m) (c :: s')).
    split; [now apply starts_with_split|].
    pose proof (starts_with_split _ _ E) as Hs.
    assert (Hl : length (c :: s')
                 = length m + length (skipn (length m) (c :: s'))).
    { rewrite Hs at 1. now rewrite length_app. }
    assert (0 < length m) by (destruct m; [contradiction|simpl; lia]).
    destruct (skipn (length m) (c :: s')) as [|d r]; simpl drop_newline;
      [simpl in *; lia|].
    destruct (N.eqb d newline); simpl in *; lia.
  - right. now exists c, s'.
Qed.

Lemma drop_newline_app (r tail : jsstring) :
  r <> [] -> drop_newline (r ++ tail) = drop_newline r ++ tail.
Proof.
  destruct r as [|d r]; [contradiction|]; intros _; simpl.
  now destruct (N.eqb d newline).
Qed.

(** Appending a tail with a foreign head leaves the scan of [s] as it
    was; only the newline that opens the tail may go, when [s] ends with
    a match. *)
Lemma remove_marker_tail (tail : jsstring) :
  foreign_head m tail ->
  forall s,
    remove_marker m (s ++ tail) = remove_marker m s ++ remove_marker m tail
    \/ remove_marker m (s ++ tail)
       = remove_marker m s ++ remove_marker m (drop_newline tail).
Proof.
  intros Hf s.
  remember (length s) as n eqn:Hn.
  revert s Hn; induction n as [n IH] using lt_wf_ind; intros s Hn.
  destruct (scan_cases s) as [->|[[r [-> Hlen]]|[c [s' [-> Hno]]]]].
  - now left.
  - rewrite <- app_assoc, !remove_marker_match.
    destruct r as [|d r].
    + right; reflexivity.
    + rewrite drop_newline_app by discriminate.
      apply (IH (length (drop_newline (d :: r)))); [lia|reflexivity].
  - change ((c :: s') ++ tail) with (c :: (s' ++ tail)).
    rewrite (remove_marker_keep c s' Hno).
    rewrite remove_marker_keep
      by (change (c :: s' ++ tail) with ((c :: s') ++ tail);
          now rewrite starts_with_tail).
    destruct (IH (length s') ltac:(simpl in Hn; lia) s' eq_refl) as [E|E];
      rewrite E; [left|right]; reflexivity.
Qed.

(** Whitespace in front of the text is not touched. *)
Lemma remove_marker_whitespace_front (a s : jsstring) :
  Forall (fun c => is_whitespace c = false) m ->
  all_whitespace a ->
  remove_marker m (a ++ s) = a ++ remove_marker m s.
Proof.
  intros Hm; induction 1 as [|c a Hc _ IH]; [reflexivity|].
  simpl app. rewrite remove_marker_keep; [now rewrite IH|].
  destruct m as [|x m']; [contradiction|].
  simpl. inversion Hm as [|? ? Hx _]; subst.
  destruct (N.eqb_spec x c) as [->|_]; [congruence|reflexivity].
Qed.

Lemma remove_marker_whitespace (b : jsstring) :
  Forall (fun c => is_whitespace c = false) m ->
  all_whitespace b -> remove_marker m b = b.
Proof.
  intros Hm Hb.
  rewrite <- (app_nil_r b) at 1.
  rewrite remove_marker_whitespace_front by assumption.
  simpl; now rewrite app_nil_r.
Qed.

Lemma whitespace_foreign (b : jsstring) :
  Forall (fun c => is_whitespace c = false) m ->
  all_whitespace b -> foreign_head m b.
Proof.
  intros Hm Hb; destruct b as [|d b]; [exact I|]; simpl.
  inversion Hb as [|? ? Hd _]; subst.
  intros Hin. rewrite Forall_forall in Hm.
  specialize (Hm d Hin). congruence.
Qed.

Lemma drop_newline_whitespace (b : jsstring) :
  all_whitespace b -> all_whitespace (drop_newline b).
Proof.
  intros Hb; destruct b as [|d b]; [assumption|]; simpl.
  destruct (N.eqb d newline); [now inversion Hb|assumption].
Qed.

(** Whitespace behind the text stays behind it. *)
Lemma remove_marker_whitespace_back (s b : jsstring) :
  Forall (fun c => is_whitespace c = false) m ->
  all_whitespace b ->
  exists b', all_whitespace b'
             /\ remove_marker m (s ++ b) = remove_marker m s ++ b'.
Proof.
  intros Hm Hb.
  destruct (remove_marker_tail b (whitespace_foreign b Hm Hb) s) as [E|E];
    rewrite E.
  - exists b; split; [assumption|].
    now rewrite (remove_marker_whitespace b Hm Hb).
  - exists (drop_newline b); split; [now apply drop_newline_whitespace|].
    now rewrite (remove_marker_whitespace _ Hm (drop_newline_whitespace b Hb)).
Qed.

(** Surrounding whitespace does not change what is left after a trim. *)
Lemma trim_remove_marker (a s b : jsstring) :
  Forall (fun c => is_whitespace c = false) m ->
  all_whitespace a -> all_whitespace b ->
  exists a' b', all_whitespace a' /\ all_whitespace b'
    /\ remove_marker m (a ++ s ++ b) = a' ++ remove_marker m s ++ b'.
Proof.
  intros Hm Ha Hb.
  destruct (remove_marker_whitespace_back s b Hm Hb) as [b' [Hb' E]].
  exists a, b'; repeat split; try assumption.
  now rewrite remove_marker_whitespace_front, E.
Qed.

End Marker.

(** ** The two fences of [cleanResponse] *)

Lemma fence_units : fence = [backtick; backtick; backtick].
Proof. reflexivity. Qed.

Lemma fence_nonempty : fence <> [].
Proof. discriminate. Qed.

Lemma fence_json_nonempty : fence_json <> [].
Proof. discriminate. Qed.

Lemma fence_not_whitespace :
  Forall (fun c => is_whitespace c = false) fence.
Proof. repeat constructor. Qed.

Lemma fence_json_not_whitespace :
  Forall (fun c => is_whitespace c = false) fence_json.
Proof. repeat constructor. Qed.

Lemma newline_whitespace : all_whitespace [newline].
Proof. repeat constructor. Qed.

(** A closing fence right behind the text goes without a trace, however
    many backticks the text ends with. *)
Lemma remove_fence_closing (u : jsstring) :
  remove_marker fence (u ++ fence) = remove_marker fence u.
Proof.
  remember (length u) as n eqn:Hn.
  revert u Hn; induction n as [n IH] using lt_wf_ind; intros u Hn.
  destruct (scan_cases fence fence_nonempty u)
    as [->|[[r [-> Hlen]]|[c [s' [-> Hno]]]]].
  - reflexivity.
  - rewrite <- app_assoc, !(remove_marker_match fence fence_nonempty).
    destruct r as [|d r]; [reflexivity|].
    rewrite drop_newline_app by discriminate.
    apply (IH (length (drop_newline (d :: r)))); [lia|reflexivity].
  - destruct (starts_with fence ((c :: s') ++ fence)) eqn:Hyes.
    + rewrite fence_units in Hyes, Hno.
      destruct s' as [|c2 [|c3 s3]]; cbn [starts_with app] in Hyes, Hno.
      * destruct (N.eqb_spec backtick c) as [<-|]; [|discriminate Hyes].
        reflexivity.
      * destruct (N.eqb_spec backtick c) as [<-|]; [|discriminate Hyes].
        destruct (N.eqb_spec backtick c2) as [<-|]; [|discriminate Hyes].
        reflexivity.
      * congruence.
    + change ((c :: s') ++ fence) with (c :: (s' ++ fence)) in *.
      rewrite (remove_marker_keep fence c _ Hyes).
      rewrite (remove_marker_keep fence c _ Hno).
      f_equal. apply (IH (length s')); [simpl in Hn; lia|reflexivity].
Qed.

Lemma trim_fenced (t : jsstring) : trim (fenced t) = fenced t.
Proof.
  unfold trim.
  assert (Hstart : trimStart (fenced t) = fenced t) by reflexivity.
  rewrite Hstart; unfold trimEnd.
  assert (Hend : fenced t
                 = (fence_json ++ newline :: t ++ [newline; backtick; backtick])
                   ++ [backtick]).
  { unfold fenced. rewrite fence_units, <- !app_assoc. simpl.
    do 2 f_equal. now rewrite <- app_assoc. }
  rewrite Hend.
  set (x := fence_json ++ newline :: t ++ [newline; backtick; backtick]).
  rewrite rev_app_distr.
  change (rev [backtick] ++ rev x) with (backtick :: rev x).
  replace (trimStart (backtick :: rev x)) with (backtick :: rev x)
    by reflexivity.
  change (rev (backtick :: rev x)) with (rev (rev x) ++ [backtick]).
  now rewrite rev_involutive.
Qed.

(** After the first replacement, the wrapped text is the replaced text
    followed by the closing fence, on a line of its own or not. *)
Lemma remove_fence_json_fenced (t : jsstring) :
  remove_marker fence_json (fenced t)
  = remove_marker fence_json t ++ newline :: fence
  \/ remove_marker fence_json (fenced t)
     = remove_marker fence_json t ++ fence.
Proof.
  unfold fenced.
  rewrite (remove_marker_match fence_json fence_json_nonempty).
  change (drop_newline (newline :: t ++ newline :: fence))
    with (t ++ newline :: fence).
  assert (Hf : foreign_head fence_json (newline :: fence)).
  { simpl. intros H. repeat (destruct H as [H|H]; [discriminate|]). exact H. }
  destruct (remove_marker_tail fence_json fence_json_nonempty _ Hf t)
    as [E|E]; rewrite E; [left|right]; reflexivity.
Qed.

(** After both replacements only whitespace can be left of the fences. *)
Lemma remove_fences_fenced (t : jsstring) :
  exists b, all_whitespace b
    /\ remove_marker fence (remove_marker fence_json (fenced t))
       = remove_marker fence (remove_marker fence_json t) ++ b.
Proof.
  destruct (remove_fence_json_fenced t) as [E|E]; rewrite E.
  - assert (Hf : foreign_head fence (newline :: fence)).
    { simpl. intros H. repeat (destruct H as [H|H]; [discriminate|]). exact H. }
    destruct (remove_marker_tail fence fence_nonempty _ Hf
                (remove_marker fence_json t)) as [E'|E']; rewrite E'.
    + exists [newline]; split; [exact newline_whitespace|reflexivity].
    + exists []; split; [constructor|reflexivity].
  - exists []; split; [constructor|].
    now rewrite remove_fence_closing, app_nil_r.
Qed.

(** Whitespace around the text does not reach the decoder. *)
Lemma clean_surrounded (a s b : jsstring) :
  all_whitespace a -> all_whitespace b ->
  trim (remove_marker fence (remove_marker fence_json (a ++ s ++ b)))
  = trim (remove_marker fence (remove_marker fence_json s)).
Proof.
  intros Ha Hb.
  destruct (trim_remove_marker fence_json fence_json_nonempty a s b
              fence_json_not_whitespace
              Ha Hb) as [a1 [b1 [Ha1 [Hb1 E1]]]].
  rewrite E1.
  destruct (trim_remove_marker fence fence_nonempty a1
              (remove_marker fence_json s) b1
              fence_not_whitespace Ha1 Hb1) as [a2 [b2 [Ha2 [Hb2 E2]]]].
  rewrite E2.
  now apply trim_surrounded.
Qed.

Lemma cleanResponse_trim (t : jsstring) :
  cleanResponse t
  = trim (remove_marker fence (remove_marker fence_json t)).
Proof.
  unfold cleanResponse.
  destruct (trim_decompose t) as [a [b [Ha [Hb Heq]]]].
  rewrite <- (clean_surrounded a (trim t) b Ha Hb).
  now rewrite <- Heq.
Qed.

Lemma cleanResponse_fenced (t : jsstring) :
  cleanResponse (fenced t) = cleanResponse t.
Proof.
  rewrite (cleanResponse_trim t).
  unfold cleanResponse. rewrite trim_fenced.
  destruct (remove_fences_fenced t) as [b [Hb E]].
  rewrite E. now apply trim_tail.
Qed.

Lemma trim_idempotent (t : jsstring) : trim (trim t) = trim t.
Proof.
  destruct (trim_decompose t) as [a [b [Ha [Hb Heq]]]].
  rewrite <- (trim_surrounded a (trim t) b Ha Hb).
  now rewrite <- Heq.
Qed.

Lemma remove_marker_absent (x : char) (m' s : jsstring) :
  ~ In x s -> remove_marker (x :: m') s = s.
Proof.
  induction s as [|c s IH]; intros Hx; [reflexivity|].
  rewrite remove_marker_keep.
  - f_equal. apply IH. intros H; apply Hx; now right.
  - simpl. destruct (N.eqb_spec x c) as [->|_]; [|reflexivity].
    exfalso; apply Hx; now left.
Qed.

Lemma In_trim (x : char) (t : jsstring) : In x (trim t) -> In x t.
Proof.
  destruct (trim_decompose t) as [a [b [_ [_ Heq]]]].
  intros H. rewrite Heq. apply in_or_app; right.
  apply in_or_app; now left.
Qed.

(** A text without backticks comes out of the fences as it went in. *)
Lemma cleanResponse_plain (t : jsstring) :
  ~ In backtick t -> cleanResponse t = trim t.
Proof.
  intros Hb. unfold cleanResponse.
  assert (Hb' : ~ In backtick (trim t)) by (intros H; apply Hb, In_trim, H).
  change fence_json with (backtick :: skipn 1 fence_json).
  change fence with (backtick :: skipn 1 fence).
  rewrite (remove_marker_absent backtick (skipn 1 fence_json) (trim t) Hb').
  rewrite (remove_marker_absent backtick (skipn 1 fence) (trim t) Hb').
  apply trim_idempotent.
Qed.

(* ================================================================== *)
(** * The checks on the decoded completion *)
(* ================================================================== *)

Lemma has_field_not_nullish (v : value) (k : jsstring) :
  has_field v k = true -> nullish v = false.
Proof. destruct v; simpl; congruence. Qed.

Lemma truthy_field_not_nullish (v : value) (k : jsstring) :
  truthy (field v k) = true -> nullish v = false.
Proof. destruct v; simpl; congruence. Qed.

Lemma missing_field_undefined (v : value) (k : jsstring) :
  has_field v k = false -> field v k = Undefined.
Proof.
  destruct v; simpl; try reflexivity.
  destruct (lookup k fields); [discriminate|reflexivity].
Qed.

Lemma truthy_not_nullish (v : value) : truthy v = true -> nullish v = false.
Proof. destruct v; simpl; congruence. Qed.

(** [validate] on a value that property reads accept. *)
Lemma validate_unfold (plantData : value) :
  nullish plantData = false ->
  validate plantData
  = if truthy (field plantData (str "error"))
    then CouldNotIdentify (field plantData (str "error"))
    else if negb (truthy (field plantData (str "name")))
            || negb (truthy (field plantData (str "scientificName")))
         then Failed IncompleteDataError
         else Identified plantData.
Proof. intros H; unfold validate, get; now rewrite H. Qed.

(** On [null] and [undefined] the first property read throws. *)
Lemma validate_nullish (plantData : value) :
  nullish plantData = true ->
  validate plantData
  = Failed (TypeError (cannot_read plantData (str "error"))).
Proof. intros H; unfold validate, get; now rewrite H. Qed.

(** A payload other than [null] that lacks [name] or [scientificName],
    and has no error to report, is incomplete. *)
Lemma missing_field_incomplete (plantData : value) :
  nullish plantData = false ->
  truthy (field plantData (str "error")) = false ->
  has_field plantData (str "name") = false
  \/ has_field plantData (str "scientificName") = false ->
  validate plantData = Failed IncompleteDataError.
Proof.
  intros Hn He [Hm|Hm]; apply missing_field_undefined in Hm;
    rewrite (validate_unfold _ Hn), He, Hm; simpl.
  - reflexivity.
  - now rewrite orb_true_r.
Qed.

(** ** C1 *)

(** C1, as stated, fails: a payload that contains [name] but not
    [scientificName], and no [error], is not returned as a result; the
    attempt fails as incomplete. *)
Lemma only_name_is_incomplete :
  has_field only_name (str "name") = true
  /\ has_field only_name (str "error") = false
  /\ validate only_name = Failed IncompleteDataError
  /\ plantInfo (identifyPlant_settle (validate only_name)
                  (identifyPlant_begin initial)) = Null.
Proof. repeat split. Qed.

(** C1, amended: for every decoded payload other than [null] whose
    [error] field is absent or falsy, the check fails with
    [IncompleteDataError] exactly when [name] or [scientificName] is
    absent or falsy, and the payload is stored as the result exactly when
    both are truthy. *)
Theorem completeness_check (plantData : value) :
  nullish plantData = false ->
  truthy (field plantData (str "error")) = false ->
  (validate plantData = Failed IncompleteDataError
   <-> truthy (field plantData (str "name")) = false
       \/ truthy (field plantData (str "scientificName")) = false)
  /\ (validate plantData = Identified plantData
      <-> truthy (field plantData (str "name")) = true
          /\ truthy (field plantData (str "scientificName")) = true)
  /\ (forall st,
        truthy (field plantData (str "name")) = true ->
        truthy (field plantData (str "scientificName")) = true ->
        plantInfo (identifyPlant_settle (validate plantData) st) = plantData).
Proof.
  intros Hn He.
  destruct (truthy (field plantData (str "name"))) eqn:Hname;
    destruct (truthy (field plantData (str "scientificName"))) eqn:Hsci;
    rewrite (validate_unfold _ Hn), He, Hname, Hsci; simpl;
    repeat split; intros; try discriminate; try tauto; auto;
    try (destruct H; discriminate).
Qed.

Lemma completeness_check_witness :
  (validate monstera = Identified monstera
   <-> truthy (field monstera (str "name")) = true
       /\ truthy (field monstera (str "scientificName")) = true)
  /\ (validate only_name = Failed IncompleteDataError
      <-> truthy (field only_name (str "name")) = false
          \/ truthy (field only_name (str "scientificName")) = false).
Proof.
  split.
  - exact (proj1 (proj2 (completeness_check monstera eq_refl eq_refl))).
  - exact (proj1 (completeness_check only_name eq_refl eq_refl)).
Defined.

(** ** C2 *)

(** C2 at the completion text [null]: the decoded payload has neither
    [name] nor [scientificName] nor [error], and the attempt does not end
    with [IncompleteDataError]: reading [plantData.error] throws a
    [TypeError], whose message the user is shown.  No result is stored. *)
Theorem null_payload_type_error :
  let p := platform_with (completes (str "null")) (str "null") Null in
  let st := attempt api_key p (Some photo) initial in
  has_field Null (str "name") = false
  /\ has_field Null (str "error") = false
  /\ validate Null
     = Failed (TypeError (str "Cannot read properties of null (reading 'error')"))
  /\ validate Null <> Failed IncompleteDataError
  /\ error st
     = Str (str "Failed to identify plant: Cannot read properties of null (reading 'error')")
  /\ plantInfo st = Null.
Proof.
  cbv zeta. repeat split.
  intros H; discriminate H.
Qed.

(** ** Children *)

Lemma child_renderable (v : value) :
  renderable v = true -> child v = Normal v.
Proof. unfold renderable, child. now destruct (invalid_child v). Qed.

Lemma child_inv (v v' : value) :
  child v = Normal v' -> v' = v /\ renderable v = true.
Proof.
  unfold renderable, child. destruct (invalid_child v); [discriminate|].
  intros H; inversion H; auto.
Qed.

Lemma child_throws (v : value) :
  renderable v = false -> exists err, child v = Throw err.
Proof.
  unfold renderable, child. destruct (invalid_child v); [eauto|discriminate].
Qed.

Lemma children_inv (l l' : list value) :
  children l = Normal l' -> l' = l /\ forallb renderable l = true.
Proof.
  revert l'; induction l as [|x l IH]; intros l' H; simpl in H.
  - inversion H; auto.
  - destruct (child x) as [x'|] eqn:Hx; [|discriminate].
    apply child_inv in Hx as [-> Hx]. cbn [bind] in H.
    destruct (children l) as [rest|]; [|discriminate].
    destruct (IH rest eq_refl) as [-> Hl].
    inversion H; subst. simpl. now rewrite Hx, Hl.
Qed.

Lemma children_renderable (l : list value) :
  forallb renderable l = true -> children l = Normal l.
Proof.
  induction l as [|x l IH]; intros H; [reflexivity|].
  simpl in H. apply andb_true_iff in H as [Hx Hl].
  simpl. now rewrite (child_renderable x Hx), (IH Hl).
Qed.

Lemma node_child_inv (n n' : node value) :
  node_child n = Normal n' -> n' = n /\ node_renderable n = true.
Proof.
  destruct n as [|text|v]; simpl; try solve [intros H; inversion H; auto].
  destruct (child v) as [v'|] eqn:Hv; [|discriminate].
  apply child_inv in Hv as [-> Hv].
  intros H; inversion H; auto.
Qed.

Lemma node_child_renderable (n : node value) :
  node_renderable n = true -> node_child n = Normal n.
Proof.
  destruct n as [|text|v]; simpl; try reflexivity.
  intros H. now rewrite (child_renderable v H).
Qed.

Lemma care_child_inv (n n' : node CareGuide) :
  care_child n = Normal n' ->
  n' = n
  /\ match n with
     | Rendered g =>
         renderable (light g) && renderable (water g)
         && renderable (humidity g) && renderable (temperature g)
     | _ => true
     end = true.
Proof.
  destruct n as [|text|[l w h t]]; simpl;
    try solve [intros H; inversion H; auto].
  destruct (child l) as [l'|] eqn:Hl; [|discriminate].
  destruct (child w) as [w'|] eqn:Hw; [|discriminate].
  destruct (child h) as [h'|] eqn:Hh; [|discriminate].
  destruct (child t) as [t'|] eqn:Ht; [|discriminate].
  apply child_inv in Hl as [-> Hl]. apply child_inv in Hw as [-> Hw].
  apply child_inv in Hh as [-> Hh]. apply child_inv in Ht as [-> Ht].
  cbn [bind]. intros H; inversion H. now rewrite Hl, Hw, Hh, Ht.
Qed.

Lemma care_child_renderable (n : node CareGuide) :
  match n with
  | Rendered g =>
      renderable (light g) && renderable (water g)
      && renderable (humidity g) && renderable (temperature g)
  | _ => true
  end = true ->
  care_child n = Normal n.
Proof.
  destruct n as [|text|[l w h t]]; simpl; try reflexivity.
  intros H. apply andb_true_iff in H as [H Ht].
  apply andb_true_iff in H as [H Hh]. apply andb_true_iff in H as [Hl Hw].
  now rewrite (child_renderable l Hl), (child_renderable w Hw),
    (child_renderable h Hh), (child_renderable t Ht).
Qed.

(** What a rendered panel shows, and that it could be shown. *)
Lemma details_inv (plantInfo : value) (d : Details) :
  details plantInfo = Normal d ->
  chips plantInfo = Normal (shown_commonNames d)
  /\ shown_name d = field plantInfo (str "name")
  /\ shown_scientificName d = field plantInfo (str "scientificName")
  /\ confidence_badge d = confidenceIndicator plantInfo
  /\ safety_note d = safetyNote plantInfo
  /\ growth_rate d = growthRateCard plantInfo
  /\ care_guide d = careGuide plantInfo
  /\ displayable plantInfo = true.
Proof.
  unfold details, displayable. intros H.
  destruct (chips plantInfo) as [names|] eqn:Hc; [|discriminate].
  cbn [bind] in H.
  destruct (child (field plantInfo (str "name"))) as [n|] eqn:Hn;
    [|discriminate].
  cbn [bind] in H.
  destruct (child (field plantInfo (str "scientificName"))) as [sn|] eqn:Hs;
    [|discriminate].
  cbn [bind] in H.
  destruct (children names) as [names'|] eqn:Hnames; [|discriminate].
  cbn [bind] in H.
  destruct (node_child (confidenceIndicator plantInfo)) as [badge|] eqn:Hb;
    [|discriminate].
  cbn [bind] in H.
  destruct (child (field plantInfo (str "description"))) as [ab|] eqn:Hd;
    [|discriminate].
  cbn [bind] in H.
  destruct (care_child (careGuide plantInfo)) as [care|] eqn:Hcare;
    [|discriminate].
  cbn [bind] in H.
  destruct (child (field plantInfo (str "family"))) as [fam|] eqn:Hf;
    [|discriminate].
  cbn [bind] in H.
  destruct (node_child (growthRateCard plantInfo)) as [growth|] eqn:Hg;
    [|discriminate].
  cbn [bind] in H.
  destruct (node_child (safetyNote plantInfo)) as [note|] eqn:Ht;
    [|discriminate].
  cbn [bind] in H.
  apply child_inv in Hn as [-> Hn]. apply child_inv in Hs as [-> Hs].
  apply children_inv in Hnames as [-> Hnames].
  apply node_child_inv in Hb as [-> Hb]. apply child_inv in Hd as [-> Hd].
  apply care_child_inv in Hcare as [-> Hcare].
  apply child_inv in Hf as [-> Hf].
  apply node_child_inv in Hg as [-> Hg]. apply node_child_inv in Ht as [-> Ht].
  inversion H; subst d; clear H.
  cbn [shown_commonNames shown_name shown_scientificName confidence_badge
       safety_note growth_rate care_guide].
  repeat (split; [reflexivity|]).
  rewrite Hn, Hs, Hb, Hd, Hcare, Hf, Hg, Ht.
  unfold chips in Hc.
  destruct (field plantInfo (str "commonNames")); inversion Hc; subst;
    try reflexivity.
  now rewrite Hnames.
Qed.

Lemma details_displayable (plantInfo : value) :
  displayable plantInfo = true -> exists d, details plantInfo = Normal d.
Proof.
  unfold displayable, details. intros H.
  repeat (apply andb_true_iff in H as [H ?]).
  assert (Hc : exists names,
             chips plantInfo = Normal names
             /\ forallb renderable names = true).
  { unfold chips.
    destruct (field plantInfo (str "commonNames")); try discriminate; eauto. }
  destruct Hc as [names [-> Hnames]]. cbn [bind].
  rewrite !child_renderable by assumption. cbn [bind].
  rewrite (children_renderable names Hnames). cbn [bind].
  rewrite !node_child_renderable by assumption. cbn [bind].
  rewrite care_child_renderable by assumption. cbn [bind].
  eauto.
Qed.

(** ** C3 *)

(** C3, as stated, fails: a payload that contains an [error] field, here
    the empty string, can still be stored as the result, with no error
    shown. *)
Lemma silent_error_is_identified :
  has_field silent_error (str "error") = true
  /\ validate silent_error = Identified silent_error
  /\ plantInfo (identifyPlant_settle (validate silent_error)
                  (identifyPlant_begin initial)) = silent_error
  /\ error (identifyPlant_settle (validate silent_error)
              (identifyPlant_begin initial)) = Null.
Proof. repeat split. Qed.

(** C3, amended: for every decoded payload whose [error] field is truthy,
    the attempt ends as "could not identify": the error of the state is
    exactly the payload's [error], with no prefix, no result is stored and
    loading ends; when that error holds no object (a message is a
    string), the panel shows it.  This holds from the completion text on,
    whatever text decodes to such a payload. *)
Theorem domain_error_surfaces (plantData : value) (st : State) :
  truthy (field plantData (str "error")) = true ->
  let st' := identifyPlant_settle (validate plantData) st in
  validate plantData = CouldNotIdentify (field plantData (str "error"))
  /\ error st' = field plantData (str "error")
  /\ plantInfo st' = plantInfo st
  /\ loading st' = false
  /\ (renderable (field plantData (str "error")) = true ->
      panel st' = Normal (Problem (field plantData (str "error"))))
  /\ (forall p text,
        JSON_parse p (cleanResponse text) = Some plantData ->
        snd (run p (parseResponse text))
        = CouldNotIdentify (field plantData (str "error"))).
Proof.
  intros He st'.
  assert (Hv : validate plantData
               = CouldNotIdentify (field plantData (str "error"))).
  { rewrite (validate_unfold _ (truthy_field_not_nullish _ _ He)).
    now rewrite He. }
  subst st'; rewrite Hv; repeat split.
  - intros Hr. unfold panel; simpl. rewrite He.
    now rewrite (child_renderable _ Hr).
  - intros p text Hp. unfold parseResponse; simpl.
    rewrite Hp. simpl. exact Hv.
Qed.

Lemma domain_error_surfaces_witness :
  let p := platform_with (completes unidentified_text) unidentified_text
             unidentified in
  error (identifyPlant_settle (validate unidentified)
           (identifyPlant_begin initial)) = Str could_not_identify
  /\ snd (run p (parseResponse unidentified_text))
     = CouldNotIdentify (Str could_not_identify)
  /\ error (attempt api_key p (Some photo) initial) = Str could_not_identify.
Proof.
  cbv zeta.
  pose proof (domain_error_surfaces unidentified (identifyPlant_begin initial)
                eq_refl) as H.
  cbv zeta in H.
  destruct H as [_ [Herr [_ [_ [_ Hrun]]]]].
  split; [exact Herr|].
  split; [|reflexivity].
  exact (Hrun (platform_with (completes unidentified_text) unidentified_text
                 unidentified) unidentified_text eq_refl).
Defined.

(** ** C10 *)

(** C10: the early return after [setError(plantData.error)] is taken
    exactly when the payload's [error] is truthy.  A payload whose [error]
    field is present but falsy goes on to the completeness check, and
    [empty_error] ends as incomplete rather than with an empty
    message. *)
Theorem error_branch_needs_truthy (plantData : value) :
  ((exists e, validate plantData = CouldNotIdentify e)
   <-> truthy (field plantData (str "error")) = true)
  /\ (has_field plantData (str "error") = true ->
      truthy (field plantData (str "error")) = false ->
      validate plantData
      = if truthy (field plantData (str "name"))
           && truthy (field plantData (str "scientificName"))
        then Identified plantData
        else Failed IncompleteDataError)
  /\ validate empty_error = Failed IncompleteDataError
  /\ error (identifyPlant_settle (validate empty_error)
              (identifyPlant_begin initial))
     = Str (str "Failed to identify plant: Incomplete plant data received from API").
Proof.
  split; [|split; [|split; reflexivity]].
  - destruct (nullish plantData) eqn:Hn.
    + rewrite (validate_nullish _ Hn).
      split; [intros [e He]; discriminate|].
      intros Ht; apply truthy_field_not_nullish in Ht; congruence.
    + rewrite (validate_unfold _ Hn).
      destruct (truthy (field plantData (str "error"))) eqn:He.
      * split; [reflexivity|eauto].
      * split; [|discriminate].
        intros [e H].
        destruct (negb _ || negb _) in H; discriminate.
  - intros Hf He.
    rewrite (validate_unfold _ (has_field_not_nullish _ _ Hf)), He.
    destruct (truthy (field plantData (str "name")));
      destruct (truthy (field plantData (str "scientificName")));
      reflexivity.
Qed.

(** ** C7 *)

(** The badge and the note of a payload that defines the fields. *)
Lemma shown_when_present :
  confidenceIndicator monstera = Rendered (Num 92)
  /\ safetyNote monstera = Omitted
  /\ confidenceIndicator
       (Obj [(str "confidence", Num 0)]) = Printed (str "0").
Proof. repeat split. Qed.

(** C7: a payload with truthy [name] and [scientificName] and no error
    is stored as the result as it is; when it has no [toxicity] the safety
    note is left out, and when it has no [confidence] the confidence badge
    is left out, not printed as 0.  The same for [toxicity: null].  The
    panel, whenever it renders, carries that note and that badge, and it
    does render when the payload can be displayed. *)
Theorem optional_fields_default (plantData : value) (st : State) :
  truthy (field plantData (str "error")) = false ->
  truthy (field plantData (str "name")) = true ->
  truthy (field plantData (str "scientificName")) = true ->
  validate plantData = Identified plantData
  /\ plantInfo (identifyPlant_settle (validate plantData) st) = plantData
  /\ (has_field plantData (str "toxicity") = false ->
      safetyNote plantData = Omitted)
  /\ (field plantData (str "toxicity") = Null ->
      safetyNote plantData = Omitted)
  /\ (has_field plantData (str "confidence") = false ->
      confidenceIndicator plantData = Omitted)
  /\ (forall d,
        details plantData = Normal d ->
        safety_note d = safetyNote plantData
        /\ confidence_badge d = confidenceIndicator plantData)
  /\ (displayable plantData = true ->
      exists d, details plantData = Normal d).
Proof.
  intros He Hname Hsci.
  assert (Hv : validate plantData = Identified plantData).
  { rewrite (validate_unfold _ (truthy_field_not_nullish _ _ Hname)).
    now rewrite He, Hname, Hsci. }
  rewrite Hv.
  split; [reflexivity|]. split; [reflexivity|].
  split; [|split; [|split; [|split]]].
  - intros H. unfold safetyNote.
    now rewrite (missing_field_undefined _ _ H).
  - intros H. unfold safetyNote. now rewrite H.
  - intros H. unfold confidenceIndicator.
    now rewrite (missing_field_undefined _ _ H).
  - intros d H.
    destruct (details_inv plantData d H) as [_ [_ [_ [Hb [Hn _]]]]].
    split; assumption.
  - apply details_displayable.
Qed.

Lemma optional_fields_default_witness :
  validate rose = Identified rose
  /\ safetyNote rose = Omitted
  /\ confidenceIndicator rose = Omitted
  /\ exists d, details rose = Normal d.
Proof.
  pose proof (optional_fields_default rose initial eq_refl eq_refl eq_refl)
    as [Hv [_ [Htox [_ [Hconf [_ Hd]]]]]].
  split; [exact Hv|].
  split; [exact (Htox eq_refl)|].
  split; [exact (Hconf eq_refl)|exact (Hd eq_refl)].
Defined.

(* ================================================================== *)
(** * The attempt up to the response *)
(* ================================================================== *)

Lemma key_missing_cases (k : option jsstring) :
  key_missing k = true <-> k = None \/ k = Some [].
Proof.
  destruct k as [[|c s]|]; simpl; split; intros H; try reflexivity; auto;
    try discriminate.
  destruct H as [H|H]; discriminate.
Qed.

(** Whatever the platform is asked, the key was there. *)
Lemma platform_calls_need_key (k : option jsstring) (file : option File)
  (p : Platform) (c : call) :
  In c (fst (run p (identifyPlant k file))) -> key_missing k = false.
Proof.
  unfold identifyPlant.
  destruct (key_missing k); [simpl; contradiction|reflexivity].
Qed.

(** ** C4 *)

(** C4: when the key is absent or empty, [identifyPlant] ends in the
    configuration error before it awaits anything: the platform is not
    called at all, so no request leaves; the state shows the message, not
    loading, and nothing stays in flight.  Conversely every platform call
    of an attempt comes after the key was found present. *)
Theorem missing_key_fails_closed (GEMINI_API_KEY : option jsstring)
  (file : option File) (p : Platform) (w : World) :
  GEMINI_API_KEY = None \/ GEMINI_API_KEY = Some [] ->
  let st := attempt GEMINI_API_KEY p file (ui w) in
  identifyPlant GEMINI_API_KEY file = Ret (Failed ConfigurationError)
  /\ fst (run p (identifyPlant GEMINI_API_KEY file)) = []
  /\ network_calls p (identifyPlant GEMINI_API_KEY file) = []
  /\ error st
     = Str (str "Failed to identify plant: Gemini API key is not configured. Please add REACT_APP_GEMINI_API_KEY to your .env file")
  /\ loading st = false
  /\ plantInfo st = plantInfo (ui w)
  /\ ui (launch GEMINI_API_KEY file w) = st
  /\ attempts (launch GEMINI_API_KEY file w) = attempts w
  /\ (forall k' file' p' c,
        In c (fst (run p' (identifyPlant k' file'))) ->
        key_missing k' = false).
Proof.
  intros Hk st.
  apply key_missing_cases in Hk.
  assert (Hid : identifyPlant GEMINI_API_KEY file
                = Ret (Failed ConfigurationError)).
  { unfold identifyPlant. now rewrite Hk. }
  subst st. unfold attempt, launch, network_calls. rewrite Hid.
  repeat split.
  exact platform_calls_need_key.
Qed.

Lemma missing_key_fails_closed_witness :
  identifyPlant None (Some photo) = Ret (Failed ConfigurationError)
  /\ network_calls (platform_with (completes monstera_text) monstera_text
                      monstera)
       (identifyPlant (Some []) (Some photo)) = [].
Proof.
  split.
  - exact (proj1 (missing_key_fails_closed None (Some photo)
                    (platform_with (completes monstera_text) monstera_text
                       monstera) boot (or_introl eq_refl))).
  - exact (proj1 (proj2 (proj2
             (missing_key_fails_closed (Some []) (Some photo)
                (platform_with (completes monstera_text) monstera_text
                   monstera) boot (or_intror eq_refl))))).
Defined.

(** ** C5 *)

(** An attempt with a key and a readable photo ends as the response
    decides. *)
Lemma attempt_reaches_response (k : option jsstring) (f : File)
  (p : Platform) (dataURL : jsstring) (response : Response) :
  key_missing k = false ->
  readAsDataURL p f = Loaded dataURL ->
  fetch p {| url := apiUrl k; mime_type := file_type f;
             data := split_comma_1 dataURL |} = Responded response ->
  ok response = false ->
  snd (run p (identifyPlant k (Some f))) = Failed (handleFailure response)
  /\ network_calls p (identifyPlant k (Some f))
     = [NetworkCall {| url := apiUrl k; mime_type := file_type f;
                       data := split_comma_1 dataURL |}].
Proof.
  intros Hk Hr Hf Hok.
  unfold network_calls, identifyPlant. rewrite Hk. simpl.
  rewrite Hr. simpl. rewrite Hf. simpl. rewrite Hok. simpl.
  split; reflexivity.
Qed.

(** A response that is not [ok], whose body is not JSON or is a JSON
    value other than [null] with a string or falsy [error.message], ends
    in the error that carries the status and that message, or
    [Unknown error]. *)
Lemma upstream_error (response : Response) (msg : jsstring) :
  upstream_text response = Some msg ->
  handleFailure response = UpstreamError (status response) (Str msg)
  /\ failure_message (handleFailure response)
     = str "Failed to identify plant: API request failed with status "
       ++ show_N (status response) ++ str ": " ++ msg.
Proof.
  intros Ht.
  assert (H : handleFailure response
              = UpstreamError (status response) (Str msg)).
  { unfold upstream_text in Ht. unfold handleFailure, get.
    destruct (body response) as [v|m].
    - destruct (nullish v); [discriminate|].
      unfold or_else.
      destruct (truthy (opt_field (field v (str "error")) (str "message")))
        eqn:Hm.
      + destruct (opt_field (field v (str "error")) (str "message"));
          try discriminate.
        now inversion Ht.
      + now inversion Ht.
    - now inversion Ht. }
  split; [exact H|]. rewrite H. reflexivity.
Qed.

Lemma rate_limit_reported :
  error (attempt api_key (platform_with rate_limited [] Null) (Some photo)
           initial)
  = Str (str "Failed to identify plant: API request failed with status 429: Resource has been exhausted").
Proof. reflexivity. Qed.

(** C5 at a 429 response whose body is the JSON literal [null]: the
    response is not [ok], yet the attempt does not end with the error that
    carries the status; reading [errorData.error] throws a [TypeError] and
    the message shown does not mention 429. *)
Theorem null_error_body_type_error :
  let response := {| status := 429%N; body := Parsed Null |} in
  let st := attempt api_key (platform_with rate_limited_null [] Null)
              (Some photo) initial in
  ok response = false
  /\ handleFailure response
     = TypeError (str "Cannot read properties of null (reading 'error')")
  /\ error st
     = Str (str "Failed to identify plant: Cannot read properties of null (reading 'error')")
  /\ loading st = false
  /\ plantInfo st = Null.
Proof. cbv zeta. repeat split. Qed.

(* ================================================================== *)
(** * Fenced completions *)
(* ================================================================== *)

Lemma trim_fenced_plain (t : jsstring) : trim (fenced_plain t) = fenced_plain t.
Proof.
  unfold trim.
  assert (Hstart : trimStart (fenced_plain t) = fenced_plain t) by reflexivity.
  rewrite Hstart; unfold trimEnd.
  assert (Hend : fenced_plain t
                 = (fence ++ newline :: t ++ [newline; backtick; backtick])
                   ++ [backtick]).
  { unfold fenced_plain. rewrite fence_units, <- !app_assoc. simpl.
    do 4 f_equal. now rewrite <- app_assoc. }
  rewrite Hend.
  set (x := fence ++ newline :: t ++ [newline; backtick; backtick]).
  rewrite rev_app_distr.
  change (rev [backtick] ++ rev x) with (backtick :: rev x).
  replace (trimStart (backtick :: rev x)) with (backtick :: rev x)
    by reflexivity.
  change (rev (backtick :: rev x)) with (rev (rev x) ++ [backtick]).
  now rewrite rev_involutive.
Qed.

(** The first replacement passes over a plain opening fence. *)
Lemma remove_fence_json_plain (s : jsstring) :
  remove_marker fence_json (fence ++ newline :: s)
  = fence ++ newline :: remove_marker fence_json s.
Proof.
  rewrite fence_units. cbn [app].
  rewrite !remove_marker_keep by reflexivity.
  reflexivity.
Qed.

Lemma cleanResponse_fenced_plain (t : jsstring) :
  cleanResponse (fenced_plain t) = cleanResponse t.
Proof.
  rewrite <- (cleanResponse_fenced t).
  unfold cleanResponse. rewrite trim_fenced, trim_fenced_plain.
  unfold fenced_plain, fenced.
  rewrite remove_fence_json_plain.
  rewrite (remove_marker_match fence_json fence_json_nonempty).
  rewrite (remove_marker_match fence fence_nonempty).
  reflexivity.
Qed.

(** A non-empty completion text in the envelope reaches the parser. *)
Lemma handleEnvelope_text (text : jsstring) :
  text <> [] -> handleEnvelope (envelope text) = parseResponse text.
Proof.
  intros Ht. unfold handleEnvelope.
  change (extractText (envelope text)) with (Normal (Str text)).
  destruct text as [|c text]; [contradiction|reflexivity].
Qed.

(** ** C6 *)

(** C6: a completion wrapped in a fenced block parses as the bare
    completion does.  The text handed to [JSON.parse] is the same, so the
    program is the same and, on every platform, so are the calls and the
    outcome.  A text without backticks reaches the decoder trimmed and
    otherwise untouched, and the plain fence behaves like the [json]
    one.  The same holds from the response envelope on, for a completion
    text that is not empty. *)
Theorem fenced_parses_alike (t : jsstring) :
  cleanResponse (fenced t) = cleanResponse t
  /\ parseResponse (fenced t) = parseResponse t
  /\ (forall p, run p (parseResponse (fenced t)) = run p (parseResponse t))
  /\ (forall p st,
        identifyPlant_settle (snd (run p (parseResponse (fenced t)))) st
        = identifyPlant_settle (snd (run p (parseResponse t))) st)
  /\ (t <> [] ->
      handleEnvelope (envelope (fenced t)) = handleEnvelope (envelope t))
  /\ (~ In backtick t -> cleanResponse (fenced t) = trim t)
  /\ cleanResponse (fenced_plain t) = cleanResponse t.
Proof.
  assert (Hp : parseResponse (fenced t) = parseResponse t).
  { unfold parseResponse. now rewrite cleanResponse_fenced. }
  split; [apply cleanResponse_fenced|].
  split; [exact Hp|].
  split; [intros p; now rewrite Hp|].
  split; [intros p st; now rewrite Hp|].
  split; [intros Ht; rewrite !handleEnvelope_text by (assumption || discriminate);
          exact Hp|].
  split; [|apply cleanResponse_fenced_plain].
  intros Hb. rewrite cleanResponse_fenced. now apply cleanResponse_plain.
Qed.

Lemma fenced_monstera_identified :
  let p := platform_with (completes (fenced monstera_text)) monstera_text
             monstera in
  let st := attempt api_key p (Some photo) initial in
  plantInfo st = monstera
  /\ error st = Null
  /\ loading st = false
  /\ confidenceIndicator (plantInfo st) = Rendered (Num 92).
Proof. cbv zeta. repeat split. Qed.

(* ================================================================== *)
(** * Reset *)
(* ================================================================== *)

(** ** C9 *)

(** C9, as stated, fails: reset is not a constant transition.  The X
    button is offered while an attempt is in flight, and the reset of that
    state keeps the loading flag, so it is neither the reset of the
    initial state nor the initial state. *)
Lemma reset_keeps_loading :
  steps api_key boot [SelectFile (Some photo);
                      PreviewLoaded 0 (Some photo_url)]
  = Some waiting_with_preview
  /\ reset_offered (ui waiting_with_preview) = true
  /\ loading (resetUpload (ui waiting_with_preview)) = true
  /\ loading (resetUpload initial) = false
  /\ resetUpload (ui waiting_with_preview) <> resetUpload initial
  /\ resetUpload (ui waiting_with_preview) <> initial.
Proof.
  repeat split; intros H; discriminate H.
Qed.

(** C9, amended: from any state [resetUpload] leads to a state with no
    selected image, no preview, no result and no error, in which the
    upload prompt is rendered; it changes nothing else (the loading flag
    stays as it is), so resetting twice is resetting once, the outcome
    depends on the loading flag alone, and without an attempt in flight
    it is the initial state. *)
Theorem reset_returns_to_empty (st : State) :
  selectedImage (resetUpload st) = None
  /\ imagePreview (resetUpload st) = None
  /\ plantInfo (resetUpload st) = Null
  /\ error (resetUpload st) = Null
  /\ resetUpload (resetUpload st) = resetUpload st
  /\ render (resetUpload st) = Normal UploadPrompt
  /\ resetUpload st = setLoading (loading st) initial
  /\ (loading st = false -> resetUpload st = initial).
Proof.
  destruct st as [img preview info busy err].
  repeat split.
  simpl. intros ->. reflexivity.
Qed.

(* ================================================================== *)
(** * Exclusion of loading, error and result *)
(* ================================================================== *)

Lemma settled_or_waiting_exclusive (w : World) :
  settled_or_waiting w -> exclusive (ui w).
Proof.
  unfold settled_or_waiting, exclusive, held.
  destruct (attempts w) as [|a [|a' rest]]; [tauto| |contradiction].
  intros [Hl [He Hp]]. rewrite Hl, He, Hp. simpl. lia.
Qed.

(** An attempt that started from a state without error and result ends
    with one of the two. *)
Lemma settle_exclusive (o : outcome) (st : State) :
  nullish (error st) = true ->
  nullish (plantInfo st) = true ->
  loading (identifyPlant_settle o st) = false
  /\ exclusive (identifyPlant_settle o st).
Proof.
  intros He Hp. split; [reflexivity|].
  unfold exclusive, held.
  destruct o as [d|e|err]; simpl; rewrite ?He, ?Hp;
    try destruct (nullish d); try destruct (nullish e); simpl; lia.
Qed.

Lemma launch_invariant (k : option jsstring) (file : option File)
  (w : World) :
  attempts w = [] ->
  nullish (plantInfo (ui w)) = true ->
  settled_or_waiting (launch k file w).
Proof.
  intros Ha Hp. unfold launch, settled_or_waiting.
  destruct (identifyPlant k file) as [o| | |]; simpl; rewrite Ha; simpl;
    try (now repeat split).
  apply settle_exclusive; [reflexivity|exact Hp].
Qed.

Lemma step_invariant (k : option jsstring) (w w' : World) (e : event) :
  settled_or_waiting w ->
  serial_event w e = true ->
  step k w e = Some w' ->
  settled_or_waiting w'.
Proof.
  intros Hinv Hserial Hstep.
  destruct e as [[f|]|i result|i p| |]; simpl in Hstep.
  - (* a file is selected *)
    destruct (input_offered (ui w)); [|discriminate].
    inversion Hstep; subst w'; clear Hstep.
    simpl in Hserial.
    destruct (attempts w) eqn:Ha; [|discriminate].
    unfold handleImageUpload.
    apply launch_invariant; reflexivity.
  - (* the dialog is cancelled *)
    destruct (input_offered (ui w)); [|discriminate].
    now inversion Hstep; subst w'.
  - (* a preview is read *)
    destruct (nth_error (previews w) i); [|discriminate].
    inversion Hstep; subst w'; clear Hstep.
    exact Hinv.
  - (* an attempt ends *)
    destruct (nth_error (attempts w) i) as [prog|] eqn:Hi; [|discriminate].
    inversion Hstep; subst w'; clear Hstep.
    unfold settled_or_waiting in *; simpl.
    destruct (attempts w) as [|a [|a' rest]]; [destruct i; discriminate| |contradiction].
    destruct Hinv as [_ [He Hp]].
    destruct i as [|[|j]]; try discriminate.
    simpl. now apply settle_exclusive.
  - (* try again *)
    destruct (retry_offered (ui w)) eqn:Hr; [|discriminate].
    inversion Hstep; subst w'; clear Hstep.
    unfold retry_offered in Hr.
    apply andb_true_iff in Hr as [Hr Herr].
    apply andb_true_iff in Hr as [_ Hload].
    apply negb_true_iff in Hload.
    unfold settled_or_waiting in Hinv.
    destruct (attempts w) as [|a [|a' rest]] eqn:Ha; [| |contradiction].
    + apply launch_invariant; [exact Ha|].
      destruct Hinv as [_ Hex]. unfold exclusive, held in Hex.
      rewrite Hload, (truthy_not_nullish _ Herr) in Hex.
      destruct (nullish (plantInfo (ui w))); [reflexivity|simpl in Hex; lia].
    + destruct Hinv as [Hl _]. congruence.
  - (* reset *)
    destruct (reset_offered (ui w)); [|discriminate].
    inversion Hstep; subst w'; clear Hstep.
    unfold settled_or_waiting in *; simpl.
    destruct (attempts w) as [|a [|a' rest]]; [| |contradiction].
    + destruct Hinv as [Hl _]. split; [exact Hl|].
      unfold exclusive, held; simpl. rewrite Hl. simpl. lia.
    + destruct Hinv as [Hl _]. now repeat split.
Qed.

Lemma steps_invariant (k : option jsstring) (es : list event) :
  forall w w',
    settled_or_waiting w ->
    serial k w es = true ->
    steps k w es = Some w' ->
    settled_or_waiting w'.
Proof.
  induction es as [|e es IH]; intros w w' Hinv Hserial Hsteps; simpl in *.
  - now inversion Hsteps; subst.
  - apply andb_true_iff in Hserial as [He Hrest].
    destruct (step k w e) as [w1|] eqn:Hstep; [|discriminate].
    apply (IH w1 w'); [|exact Hrest|exact Hsteps].
    exact (step_invariant k w w1 e Hinv He Hstep).
Qed.

Lemma boot_invariant : settled_or_waiting boot.
Proof. split; [reflexivity|]. unfold exclusive, held; simpl; lia. Qed.

(** ** C8 *)

(** C8, as stated, fails: when a photo is selected while an earlier
    attempt is still in flight, both attempts end on the same state.  Here
    the state ends up holding the plant of the first attempt and the error
    of the second. *)
Lemma overlapping_attempts_hold_both :
  exists w,
    steps api_key boot overlapping_attempts = Some w
    /\ plantInfo (ui w) = monstera
    /\ error (ui w)
       = Str (str "Failed to identify plant: API request failed with status 429: Resource has been exhausted")
    /\ loading (ui w) = false
    /\ held (ui w) = 2.
Proof. eexists. split; [reflexivity|]. repeat split. Qed.

(** C8, amended: in every state reached by a sequence of file selections,
    previews, settling attempts, retries and resets in which a file is
    only selected while no earlier attempt is in flight, at most one of
    loading, error and result is held; in particular never an error
    together with a result, and at most one attempt is in flight. *)
Theorem serial_attempts_exclusive (GEMINI_API_KEY : option jsstring)
  (es : list event) (w : World) :
  steps GEMINI_API_KEY boot es = Some w ->
  serial GEMINI_API_KEY boot es = true ->
  exclusive (ui w)
  /\ (nullish (error (ui w)) = true \/ nullish (plantInfo (ui w)) = true)
  /\ length (attempts w) <= 1.
Proof.
  intros Hsteps Hserial.
  pose proof (steps_invariant GEMINI_API_KEY es boot w boot_invariant
                Hserial Hsteps) as Hinv.
  pose proof (settled_or_waiting_exclusive w Hinv) as Hex.
  split; [exact Hex|split].
  - unfold exclusive, held in Hex.
    destruct (nullish (error (ui w))); [now left|right].
    destruct (nullish (plantInfo (ui w))); [reflexivity|].
    destruct (loading (ui w)); simpl in Hex; lia.
  - unfold settled_or_waiting in Hinv.
    destruct (attempts w) as [|a [|a' rest]]; simpl; [lia|lia|contradiction].
Qed.

Lemma serial_attempts_exclusive_witness :
  exists w,
    steps api_key boot retry_after_failure = Some w
    /\ plantInfo (ui w) = monstera
    /\ exclusive (ui w).
Proof.
  eexists. split; [reflexivity|]. split; [reflexivity|].
  exact (proj1 (serial_attempts_exclusive api_key retry_after_failure _
                  eq_refl eq_refl)).
Defined.

(* ================================================================== *)
(** * The course of an attempt *)
(* ================================================================== *)

(** The run of the envelope handler, case by case. *)
Lemma run_handleEnvelope (p : Platform) (data : value) :
  run p (handleEnvelope data)
  = match extractText data with
    | Throw err => ([], Failed err)
    | Normal t =>
        if negb (truthy t) then ([], Failed EmptyResponseError)
        else
          match t with
          | Str text =>
              ([Decode (cleanResponse text)],
               match JSON_parse p (cleanResponse text) with
               | None => Failed MalformedResponseError
               | Some d => validate d
               end)
          | _ => ([], Failed (TypeError (str "textResponse.trim is not a function")))
          end
    end.
Proof.
  unfold handleEnvelope.
  destruct (extractText data) as [t|err]; [|reflexivity].
  destruct (negb (truthy t)); [reflexivity|].
  destruct t; try reflexivity.
  unfold parseResponse; cbn [run].
  destruct (JSON_parse p (cleanResponse s)); reflexivity.
Qed.

(** The run of an attempt, case by case. *)
Lemma run_identifyPlant (k : option jsstring) (file : option File)
  (p : Platform) :
  run p (identifyPlant k file)
  = if key_missing k then ([], Failed ConfigurationError)
    else
      match file with
      | None =>
          ([], Failed (TypeError (str "Failed to execute 'readAsDataURL' on 'FileReader': parameter 1 is not of type 'Blob'.")))
      | Some f =>
          match readAsDataURL p f with
          | ReadError => ([FileRead f], Failed ProgressEvent)
          | Loaded dataURL =>
              let request := request_for k f dataURL in
              match fetch p request with
              | NetworkFailure m =>
                  ([FileRead f; NetworkCall request], Failed (TypeError m))
              | Responded response =>
                  if negb (ok response)
                  then ([FileRead f; NetworkCall request],
                        Failed (handleFailure response))
                  else
                    match body response with
                    | Unparseable m =>
                        ([FileRead f; NetworkCall request],
                         Failed (SyntaxError m))
                    | Parsed data =>
                        (FileRead f :: NetworkCall request
                           :: fst (run p (handleEnvelope data)),
                         snd (run p (handleEnvelope data)))
                    end
              end
          end
      end.
Proof.
  unfold identifyPlant.
  destruct (key_missing k); [reflexivity|].
  destruct file as [f|]; [|reflexivity].
  cbn [run]. destruct (readAsDataURL p f) as [dataURL|]; [|reflexivity].
  cbn [run]. fold (request_for k f dataURL). cbv zeta.
  destruct (fetch p (request_for k f dataURL)) as [response|m];
    [|reflexivity].
  destruct (negb (ok response)); [reflexivity|].
  destruct (body response) as [data|m]; [|reflexivity].
  destruct (run p (handleEnvelope data)); reflexivity.
Qed.

Lemma validate_conclusive (d : value) : conclusive (validate d).
Proof.
  destruct (nullish d) eqn:Hn.
  - rewrite (validate_nullish _ Hn). exact I.
  - rewrite (validate_unfold _ Hn).
    destruct (truthy (field d (str "error"))) eqn:He; [exact He|].
    destruct (truthy (field d (str "name"))) eqn:Hname;
      destruct (truthy (field d (str "scientificName"))) eqn:Hsci;
      simpl; auto.
Qed.

Lemma handleEnvelope_conclusive (p : Platform) (data : value) :
  conclusive (snd (run p (handleEnvelope data))).
Proof.
  rewrite run_handleEnvelope.
  destruct (extractText data) as [t|err]; [|exact I].
  destruct (negb (truthy t)); [exact I|].
  destruct t; try exact I.
  simpl. destruct (JSON_parse p (cleanResponse s)); [|exact I].
  apply validate_conclusive.
Qed.

Lemma identifyPlant_conclusive (k : option jsstring) (file : option File)
  (p : Platform) :
  conclusive (snd (run p (identifyPlant k file))).
Proof.
  rewrite run_identifyPlant.
  destruct (key_missing k); [exact I|].
  destruct file as [f|]; [|exact I].
  destruct (readAsDataURL p f) as [dataURL|]; [|exact I].
  cbv zeta.
  destruct (fetch p (request_for k f dataURL)) as [response|m]; [|exact I].
  destruct (negb (ok response)); [exact I|].
  destruct (body response) as [data|m]; [|exact I].
  apply handleEnvelope_conclusive.
Qed.

Lemma failure_message_truthy (err : thrown) :
  truthy (Str (failure_message err)) = true.
Proof. reflexivity. Qed.

(** X1: every attempt ends visibly.  Whatever the key, the file and the
    answers of the platform, when the attempt has run to its end the
    state is not loading, the selected image and the preview are as
    before, and either an error is shown and the result is as it was, or
    no error is held and the stored result has a truthy [name] and
    [scientificName]. *)
Theorem attempt_ends_visibly (k : option jsstring) (p : Platform)
  (file : option File) (st : State) :
  let st' := attempt k p file st in
  loading st' = false
  /\ selectedImage st' = selectedImage st
  /\ imagePreview st' = imagePreview st
  /\ ((truthy (error st') = true /\ plantInfo st' = plantInfo st)
      \/ (error st' = Null
          /\ truthy (field (plantInfo st') (str "name")) = true
          /\ truthy (field (plantInfo st') (str "scientificName")) = true)).
Proof.
  intros st'. subst st'. unfold attempt.
  pose proof (identifyPlant_conclusive k file p) as Hc.
  destruct (snd (run p (identifyPlant k file))) as [d|e|err];
    (split; [reflexivity|]); (split; [reflexivity|]);
    (split; [reflexivity|]).
  - right. destruct Hc as [Hn [Hs _]].
    split; [reflexivity|]. split; [exact Hn|exact Hs].
  - left. split; [exact Hc|reflexivity].
  - left. split; reflexivity.
Qed.

(** X2: the calls of an attempt come in one order, each at most once: the
    file is read, then one request is sent, carrying the key in its
    address, the type of the file and the data read from it, then the
    cleaned completion is decoded.  An attempt never sends a second
    request and never decodes before the service has answered. *)
Theorem attempt_calls_in_order (k : option jsstring) (file : option File)
  (p : Platform) :
  let log := fst (run p (identifyPlant k file)) in
  length (network_calls p (identifyPlant k file)) <= 1
  /\ (log = []
      \/ exists f,
           file = Some f
           /\ (log = [FileRead f]
               \/ exists dataURL,
                    readAsDataURL p f = Loaded dataURL
                    /\ (log = [FileRead f;
                               NetworkCall (request_for k f dataURL)]
                        \/ exists text,
                             log = [FileRead f;
                                    NetworkCall (request_for k f dataURL);
                                    Decode (cleanResponse text)]))).
Proof.
  cbv zeta. unfold network_calls.
  rewrite run_identifyPlant.
  destruct (key_missing k); [split; [simpl; lia|now left]|].
  destruct file as [f|]; [|split; [simpl; lia|now left]].
  destruct (readAsDataURL p f) as [dataURL|] eqn:Hread;
    [|split; [simpl; lia|right; exists f; split; [reflexivity|now left]]].
  cbv zeta.
  assert (Hsent : forall log',
             log' = [FileRead f; NetworkCall (request_for k f dataURL)]
             \/ (exists text,
                   log' = [FileRead f; NetworkCall (request_for k f dataURL);
                           Decode (cleanResponse text)]) ->
             length (filter is_network_call log') <= 1
             /\ (log' = []
                 \/ exists f0,
                      Some f = Some f0
                      /\ (log' = [FileRead f0]
                          \/ exists u,
                               readAsDataURL p f0 = Loaded u
                               /\ (log' = [FileRead f0;
                                           NetworkCall (request_for k f0 u)]
                                   \/ exists text,
                                        log' = [FileRead f0;
                                                NetworkCall (request_for k f0 u);
                                                Decode (cleanResponse text)])))).
  { intros log' H. split.
    - destruct H as [->|[text ->]]; simpl; lia.
    - right. exists f. split; [reflexivity|]. right.
      exists dataURL. split; [exact Hread|exact H]. }
  destruct (fetch p (request_for k f dataURL)) as [response|m];
    [|cbn [fst]; apply Hsent; now left].
  destruct (negb (ok response)); [cbn [fst]; apply Hsent; now left|].
  destruct (body response) as [data|m]; [|cbn [fst]; apply Hsent; now left].
  rewrite run_handleEnvelope. cbn [fst].
  destruct (extractText data) as [t|err];
    [|cbn [fst]; apply Hsent; now left].
  destruct (negb (truthy t)); [cbn [fst]; apply Hsent; now left|].
  destruct t; cbn [fst]; try (apply Hsent; now left).
  apply Hsent. right. now exists s.
Qed.

Lemma validate_identified (d' d : value) :
  validate d' = Identified d ->
  d' = d
  /\ truthy (field d (str "name")) = true
  /\ truthy (field d (str "scientificName")) = true
  /\ truthy (field d (str "error")) = false.
Proof.
  intros H. pose proof (validate_conclusive d') as Hc. rewrite H in Hc.
  destruct (nullish d') eqn:Hn.
  - rewrite (validate_nullish _ Hn) in H. discriminate.
  - rewrite (validate_unfold _ Hn) in H.
    destruct (truthy (field d' (str "error"))); [discriminate|].
    destruct (negb _ || negb _); [discriminate|].
    inversion H; subst. split; [reflexivity|exact Hc].
Qed.

(** X3: a result is stored only along one path.  When an attempt ends
    with a plant, the key was present, the file was read, the service
    answered with an [ok] status and a body that parsed, the envelope
    held a non-empty completion text, and the payload is exactly what the
    cleaned text decoded to, with truthy [name] and [scientificName] and
    no truthy [error]. *)
Theorem result_only_from_valid_payload (k : option jsstring)
  (file : option File) (p : Platform) (d : value) :
  snd (run p (identifyPlant k file)) = Identified d ->
  key_missing k = false
  /\ exists f dataURL response data text,
       file = Some f
       /\ readAsDataURL p f = Loaded dataURL
       /\ fetch p (request_for k f dataURL) = Responded response
       /\ ok response = true
       /\ body response = Parsed data
       /\ extractText data = Normal (Str text)
       /\ text <> []
       /\ JSON_parse p (cleanResponse text) = Some d
       /\ truthy (field d (str "name")) = true
       /\ truthy (field d (str "scientificName")) = true
       /\ truthy (field d (str "error")) = false.
Proof.
  intros H. rewrite run_identifyPlant in H.
  destruct (key_missing k); [discriminate|]. split; [reflexivity|].
  destruct file as [f|]; [|discriminate].
  destruct (readAsDataURL p f) as [dataURL|] eqn:Hread; [|discriminate].
  cbv zeta in H.
  destruct (fetch p (request_for k f dataURL)) as [response|m] eqn:Hfetch;
    [|discriminate].
  destruct (ok response) eqn:Hok; [|discriminate].
  cbn [negb] in H.
  destruct (body response) as [data|m] eqn:Hbody; [|discriminate].
  cbn [snd] in H. rewrite run_handleEnvelope in H.
  destruct (extractText data) as [t|err] eqn:Hext; [|discriminate].
  destruct (truthy t) eqn:Ht; [|discriminate].
  cbn [negb] in H.
  destruct t as [| | | |text| |]; try discriminate.
  cbn [snd] in H.
  destruct (JSON_parse p (cleanResponse text)) as [d'|] eqn:Hparse;
    [|discriminate].
  apply validate_identified in H as [-> [Hn [Hs He]]].
  exists f, dataURL, response, data, text.
  repeat (split; [first [reflexivity|assumption]|]).
  split; [destruct text; [discriminate Ht|discriminate]|].
  repeat (split; [assumption|]). assumption.
Qed.

Lemma result_only_from_valid_payload_witness :
  key_missing api_key = false
  /\ exists f dataURL response data text,
       Some photo = Some f
       /\ readAsDataURL
            (platform_with (completes monstera_text) monstera_text monstera)
            f = Loaded dataURL
       /\ fetch
            (platform_with (completes monstera_text) monstera_text monstera)
            (request_for api_key f dataURL) = Responded response
       /\ ok response = true
       /\ body response = Parsed data
       /\ extractText data = Normal (Str text)
       /\ text <> []
       /\ JSON_parse
            (platform_with (completes monstera_text) monstera_text monstera)
            (cleanResponse text) = Some monstera
       /\ truthy (field monstera (str "name")) = true
       /\ truthy (field monstera (str "scientificName")) = true
       /\ truthy (field monstera (str "error")) = false.
Proof.
  exact (result_only_from_valid_payload api_key (Some photo)
           (platform_with (completes monstera_text) monstera_text monstera)
           monstera eq_refl).
Defined.

(** ** The request *)

Lemma until_comma_plain (s : jsstring) : ~ In comma s -> until_comma s = s.
Proof.
  induction s as [|c s IH]; intros H; [reflexivity|]. simpl.
  destruct (N.eqb_spec c comma) as [->|_]; [exfalso; apply H; now left|].
  f_equal. apply IH. intros Hin; apply H; now right.
Qed.

(** [split(',')[1]] of a text with one comma is what follows the comma. *)
Lemma split_comma_1_after (prefix payload : jsstring) :
  ~ In comma prefix -> ~ In comma payload ->
  split_comma_1 (prefix ++ comma :: payload) = Str payload.
Proof.
  intros Hp Hq. induction prefix as [|c prefix IH]; simpl.
  - now rewrite until_comma_plain.
  - destruct (N.eqb_spec c comma) as [->|_]; [exfalso; apply Hp; now left|].
    apply IH. intros Hin; apply Hp; now right.
Qed.

Lemma envelope_makes_no_request (p : Platform) (data : value) :
  filter is_network_call (fst (run p (handleEnvelope data))) = [].
Proof.
  rewrite run_handleEnvelope.
  destruct (extractText data) as [t|err]; [|reflexivity].
  destruct (negb (truthy t)); [reflexivity|].
  destruct t; reflexivity.
Qed.

(** X4: the request carries the image.  When the key is present and the
    file is read as a data URL, that is a header without comma, a comma
    and a base64 payload, the attempt sends exactly one request, to the
    address that ends with the key, with the type of the file as MIME type
    and the payload after the comma as data. *)
Theorem request_carries_image (k : option jsstring) (f : File)
  (p : Platform) (header payload : jsstring) :
  key_missing k = false ->
  ~ In comma header ->
  ~ In comma payload ->
  readAsDataURL p f = Loaded (header ++ comma :: payload) ->
  network_calls p (identifyPlant k (Some f))
  = [NetworkCall {| url := apiUrl k;
                    mime_type := file_type f;
                    data := Str payload |}].
Proof.
  intros Hk Hh Hp Hread. unfold network_calls.
  rewrite run_identifyPlant, Hk, Hread. cbv zeta.
  unfold request_for. rewrite (split_comma_1_after _ _ Hh Hp).
  set (request := {| url := apiUrl k; mime_type := file_type f;
                     data := Str payload |}).
  destruct (fetch p request) as [response|m]; [|reflexivity].
  destruct (negb (ok response)); [reflexivity|].
  destruct (body response) as [data|m]; [|reflexivity].
  cbn [fst filter is_network_call].
  now rewrite envelope_makes_no_request.
Qed.

Lemma request_carries_image_witness :
  network_calls
    (platform_with (completes monstera_text) monstera_text monstera)
    (identifyPlant api_key (Some photo))
  = [NetworkCall {| url := apiUrl api_key;
                    mime_type := str "image/png";
                    data := Str (str "iVBORw0KGgo=") |}].
Proof.
  apply (request_carries_image api_key photo
           (platform_with (completes monstera_text) monstera_text monstera)
           (str "data:image/png;base64") (str "iVBORw0KGgo=")).
  - reflexivity.
  - intros H. repeat (destruct H as [H|H]; [discriminate H|]). exact H.
  - intros H. repeat (destruct H as [H|H]; [discriminate H|]). exact H.
  - reflexivity.
Defined.

(** X5: a file that cannot be read.  When the key is present and the
    reader fails, the attempt ends without any request; the reader rejects
    with its event, which has no [message], so the text shown ends in
    [undefined]. *)
Theorem unreadable_file_reported (k : option jsstring) (f : File)
  (p : Platform) (st : State) :
  key_missing k = false ->
  readAsDataURL p f = ReadError ->
  let st' := attempt k p (Some f) st in
  error st' = Str (str "Failed to identify plant: undefined")
  /\ fst (run p (identifyPlant k (Some f))) = [FileRead f]
  /\ network_calls p (identifyPlant k (Some f)) = []
  /\ plantInfo st' = plantInfo st
  /\ loading st' = false.
Proof.
  intros Hk Hread st'. subst st'. unfold attempt, network_calls.
  rewrite run_identifyPlant, Hk, Hread.
  repeat split.
Qed.

Lemma unreadable_file_reported_witness :
  error (attempt api_key unreadable (Some photo) initial)
  = Str (str "Failed to identify plant: undefined")
  /\ network_calls unreadable (identifyPlant api_key (Some photo)) = [].
Proof.
  pose proof (unreadable_file_reported api_key photo unreadable initial
                eq_refl eq_refl) as H.
  cbv zeta in H. destruct H as [He [_ [Hn _]]].
  split; [exact He|exact Hn].
Defined.

(** ** Responses that are not [ok] *)

(** X6: what a failed request shows.  When the service answers with a
    status outside 200-299, nothing is decoded and no result is stored.
    If the body is not JSON the text shown ends in [Unknown error]; if it
    is a JSON value other than [null], the text shown carries the status
    and then [error.message] of the body when that is a non-empty string,
    and [Unknown error] when it is missing or falsy. *)
Theorem upstream_failure_reported (k : option jsstring) (f : File)
  (p : Platform) (dataURL : jsstring) (response : Response) (st : State) :
  key_missing k = false ->
  readAsDataURL p f = Loaded dataURL ->
  fetch p (request_for k f dataURL) = Responded response ->
  ok response = false ->
  let st' := attempt k p (Some f) st in
  fst (run p (identifyPlant k (Some f)))
  = [FileRead f; NetworkCall (request_for k f dataURL)]
  /\ plantInfo st' = plantInfo st
  /\ loading st' = false
  /\ (forall m,
        body response = Unparseable m ->
        error st'
        = Str (str "Failed to identify plant: API request failed with status "
               ++ show_N (status response) ++ str ": Unknown error"))
  /\ (forall v,
        body response = Parsed v ->
        nullish v = false ->
        truthy (opt_field (field v (str "error")) (str "message")) = false ->
        error st'
        = Str (str "Failed to identify plant: API request failed with status "
               ++ show_N (status response) ++ str ": Unknown error"))
  /\ (forall v msg,
        body response = Parsed v ->
        nullish v = false ->
        opt_field (field v (str "error")) (str "message") = Str msg ->
        msg <> [] ->
        error st'
        = Str (str "Failed to identify plant: API request failed with status "
               ++ show_N (status response) ++ str ": " ++ msg)).
Proof.
  intros Hk Hread Hfetch Hok st'. subst st'. unfold attempt.
  rewrite run_identifyPlant, Hk, Hread. cbv zeta.
  rewrite Hfetch, Hok. cbn [negb fst snd].
  split; [reflexivity|]. split; [reflexivity|]. split; [reflexivity|].
  split; [|split].
  - intros m Hbody.
    unfold handleFailure. rewrite Hbody. reflexivity.
  - intros v Hbody Hv Hm.
    unfold handleFailure, get, or_else. rewrite Hbody, Hv, Hm. reflexivity.
  - intros v msg Hbody Hv Hm Hne.
    unfold handleFailure, get, or_else. rewrite Hbody, Hv, Hm.
    destruct msg; [contradiction|reflexivity].
Qed.

Lemma upstream_failure_reported_witness :
  error (attempt api_key (platform_with rate_limited [] Null) (Some photo)
           initial)
  = Str (str "Failed to identify plant: API request failed with status "
         ++ show_N 429 ++ str ": " ++ str "Resource has been exhausted").
Proof.
  pose proof (upstream_failure_reported api_key photo
                (platform_with rate_limited [] Null) photo_url
                {| status := 429%N; body := Parsed quota_exceeded |} initial
                eq_refl eq_refl eq_refl eq_refl) as H.
  cbv zeta in H. destruct H as [_ [_ [_ [_ [_ H]]]]].
  refine (H quota_exceeded (str "Resource has been exhausted")
            eq_refl eq_refl eq_refl _).
  discriminate.
Defined.

(** ** The envelope *)

Lemma extractText_no_candidates (data : value) :
  nullish data = false ->
  nullish (opt_first (field data (str "candidates"))) = true ->
  extractText data = Normal Undefined.
Proof.
  intros Hd Hc. unfold extractText, get. rewrite Hd. cbn [bind].
  destruct (opt_first (field data (str "candidates"))); try discriminate;
    reflexivity.
Qed.

(** X7: the decoder is only called on a completion text.  [JSON.parse]
    is called only when the envelope holds a non-empty string as the text
    of its first candidate, and then on the cleaned text.  An envelope
    other than [null] whose [candidates] is absent, [null] or an empty
    array ends with the no-response error, and so does an empty completion
    text. *)
Theorem decoder_needs_completion_text (p : Platform) (data : value) :
  (forall c,
      In c (fst (run p (handleEnvelope data))) ->
      exists text,
        text <> []
        /\ extractText data = Normal (Str text)
        /\ c = Decode (cleanResponse text))
  /\ (nullish data = false ->
      field data (str "candidates") = Undefined
      \/ field data (str "candidates") = Null
      \/ field data (str "candidates") = Arr [] ->
      run p (handleEnvelope data) = ([], Failed EmptyResponseError))
  /\ run p (handleEnvelope (envelope [])) = ([], Failed EmptyResponseError).
Proof.
  split; [|split; [|reflexivity]].
  - intros c. rewrite run_handleEnvelope.
    destruct (extractText data) as [t|err]; [|intros []].
    destruct (truthy t) eqn:Ht; [|intros []].
    cbn [negb].
    destruct t as [| | | |text| |];
      try (cbn [fst In]; intros H; contradiction).
    cbn [fst]. intros [<-|[]].
    exists text. split; [destruct text; [discriminate Ht|discriminate]|].
    split; reflexivity.
  - intros Hd Hc. rewrite run_handleEnvelope.
    rewrite (extractText_no_candidates data Hd).
    + reflexivity.
    + destruct Hc as [->|[->| ->]]; reflexivity.
Qed.

(* ================================================================== *)
(** * What the cleaning leaves *)
(* ================================================================== *)

Lemma starts_with_occurs (m s : jsstring) :
  starts_with m s = true -> occurs m s.
Proof.
  intros H. exists [], (skipn (length m) s).
  exact (starts_with_split m s H).
Qed.

Lemma occurs_cons (m s : jsstring) (c : char) :
  occurs m s -> occurs m (c :: s).
Proof. intros [a [b ->]]. now exists (c :: a), b. Qed.

Lemma occurs_head (m s : jsstring) (c : char) :
  occurs m (c :: s) -> starts_with m (c :: s) = true \/ occurs m s.
Proof.
  intros [a [b H]]. destruct a as [|c' a].
  - left. simpl in H. rewrite H. apply starts_with_app.
  - right. inversion H; subst. now exists a, b.
Qed.

Lemma occurs_trim (m s : jsstring) : occurs m (trim s) -> occurs m s.
Proof.
  intros [a' [b' H]].
  destruct (trim_decompose s) as [a [b [_ [_ Heq]]]].
  exists (a ++ a'), (b' ++ b).
  rewrite Heq at 1. rewrite H. now rewrite <- !app_assoc.
Qed.

Lemma occurs_fence_json (s : jsstring) :
  occurs fence_json s -> occurs fence s.
Proof.
  intros [a [b ->]]. exists a, (str "json" ++ b).
  change fence_json with (fence ++ str "json").
  now rewrite <- app_assoc.
Qed.

(** Where nothing matches, nothing is removed. *)
Lemma remove_marker_no_occurrence (m s : jsstring) :
  m <> [] -> ~ occurs m s -> remove_marker m s = s.
Proof.
  intros Hm. induction s as [|c s IH]; intros Hno; [reflexivity|].
  rewrite remove_marker_keep.
  - f_equal. apply IH. intros H. apply Hno. now apply occurs_cons.
  - destruct (starts_with m (c :: s)) eqn:E; [|reflexivity].
    exfalso. apply Hno. now apply starts_with_occurs.
Qed.

(** What is left of the second replacement begins with a backtick only
    where the text did, and with two only where the text did. *)
Lemma remove_fence_head1 (s : jsstring) :
  starts_with [backtick] (remove_marker fence s) = true ->
  starts_with [backtick] s = true.
Proof.
  destruct (scan_cases fence fence_nonempty s)
    as [->|[[r [-> _]]|[c [s' [-> Hno]]]]].
  - discriminate.
  - intros _. reflexivity.
  - rewrite (remove_marker_keep fence c s' Hno). intros H; exact H.
Qed.

Lemma remove_fence_head2 (s : jsstring) :
  starts_with [backtick; backtick] (remove_marker fence s) = true ->
  starts_with [backtick; backtick] s = true.
Proof.
  destruct (scan_cases fence fence_nonempty s)
    as [->|[[r [-> _]]|[c [s' [-> Hno]]]]].
  - discriminate.
  - intros _. reflexivity.
  - rewrite (remove_marker_keep fence c s' Hno).
    cbn [starts_with]. intros H.
    apply andb_true_iff in H as [Hc H].
    rewrite Hc. cbn [andb].
    exact (remove_fence_head1 s' H).
Qed.

(** The second replacement leaves no fence behind. *)
Lemma remove_fence_complete (s : jsstring) :
  ~ occurs fence (remove_marker fence s).
Proof.
  remember (length s) as n eqn:Hn.
  revert s Hn; induction n as [n IH] using lt_wf_ind; intros s Hn.
  destruct (scan_cases fence fence_nonempty s)
    as [->|[[r [-> Hlen]]|[c [s' [-> Hno]]]]].
  - intros [a [b H]]. destruct a; discriminate.
  - rewrite (remove_marker_match fence fence_nonempty).
    apply (IH (length (drop_newline r))); [lia|reflexivity].
  - rewrite (remove_marker_keep fence c s' Hno).
    intros H. apply occurs_head in H as [H|H].
    + rewrite fence_units in H, Hno. cbn [starts_with] in H, Hno.
      apply andb_true_iff in H as [Hc H].
      apply remove_fence_head2 in H. cbn [starts_with] in H.
      rewrite Hc, H in Hno. discriminate.
    + revert H. apply (IH (length s')); [simpl in Hn; lia|reflexivity].
Qed.

(** X8: the cleaned text is clean.  Whatever the completion, the text
    handed to the decoder contains no code fence and has no whitespace
    at either end; cleaning it again changes nothing, so a completion
    that was already cleaned parses as it did. *)
Theorem cleaned_text_is_clean (t : jsstring) :
  ~ occurs fence (cleanResponse t)
  /\ ~ occurs fence_json (cleanResponse t)
  /\ trim (cleanResponse t) = cleanResponse t
  /\ cleanResponse (cleanResponse t) = cleanResponse t
  /\ parseResponse (cleanResponse t) = parseResponse t.
Proof.
  assert (Hf : ~ occurs fence (cleanResponse t)).
  { unfold cleanResponse. intros H. apply occurs_trim in H.
    exact (remove_fence_complete _ H). }
  assert (Hj : ~ occurs fence_json (cleanResponse t)).
  { intros H. apply Hf. now apply occurs_fence_json. }
  assert (Ht : trim (cleanResponse t) = cleanResponse t).
  { unfold cleanResponse. apply trim_idempotent. }
  assert (Hc : cleanResponse (cleanResponse t) = cleanResponse t).
  { unfold cleanResponse at 1. rewrite Ht.
    rewrite (remove_marker_no_occurrence fence_json _ fence_json_nonempty Hj).
    rewrite (remove_marker_no_occurrence fence _ fence_nonempty Hf).
    exact Ht. }
  repeat split; try assumption.
  unfold parseResponse. now rewrite Hc.
Qed.

(** X9: whitespace around the completion does not matter.  A completion
    with whitespace in front of it or behind it is cleaned to the same
    text, and so parses to the same outcome on every platform. *)
Theorem surrounding_whitespace_ignored (a t b : jsstring) :
  all_whitespace a ->
  all_whitespace b ->
  cleanResponse (a ++ t ++ b) = cleanResponse t
  /\ parseResponse (a ++ t ++ b) = parseResponse t
  /\ (forall p, run p (parseResponse (a ++ t ++ b))
                = run p (parseResponse t)).
Proof.
  intros Ha Hb.
  assert (Hc : cleanResponse (a ++ t ++ b) = cleanResponse t).
  { rewrite !cleanResponse_trim. now apply clean_surrounded. }
  assert (Hp : parseResponse (a ++ t ++ b) = parseResponse t).
  { unfold parseResponse. now rewrite Hc. }
  split; [exact Hc|]. split; [exact Hp|].
  intros p. now rewrite Hp.
Qed.

Lemma surrounding_whitespace_ignored_witness :
  cleanResponse (str "  " ++ monstera_text ++ [newline])
  = cleanResponse monstera_text.
Proof.
  apply (surrounding_whitespace_ignored (str "  ") monstera_text [newline]);
    repeat constructor.
Defined.

(* ================================================================== *)
(** * Invariants of the event loop *)
(* ================================================================== *)

Lemma settle_well_formed (o : outcome) (st : State) :
  conclusive o -> well_formed st -> well_formed (identifyPlant_settle o st).
Proof.
  intros Hc [Hp He]. destruct o as [d|e|err]; split; simpl.
  - right. destruct Hc as [Hn [Hs _]]. auto.
  - exact He.
  - exact Hp.
  - right. exact Hc.
  - exact Hp.
  - right. reflexivity.
Qed.

Lemma begin_well_formed (st : State) :
  well_formed st -> well_formed (identifyPlant_begin st).
Proof. intros [Hp _]. split; [exact Hp|now left]. Qed.

(** An attempt that ends without a platform call ends conclusively. *)
Lemma immediate_conclusive (k : option jsstring) (file : option File)
  (o : outcome) :
  identifyPlant k file = Ret o -> conclusive o.
Proof.
  intros H. pose proof (identifyPlant_conclusive k file unreadable) as Hc.
  now rewrite H in Hc.
Qed.

Lemma launch_orderly (k : option jsstring) (file : option File) (w : World) :
  orderly k w -> orderly k (launch k file w).
Proof.
  intros [Hl [Hw Hi]]. unfold launch, orderly, launched in *.
  destruct (identifyPlant k file) as [o| | |] eqn:Hprog; simpl.
  - split; [exact Hl|]. split; [|reflexivity].
    apply settle_well_formed;
      [exact (immediate_conclusive k file o Hprog)|now apply begin_well_formed].
  - split; [apply Forall_app; split; [exact Hl|]|].
    + constructor; [|constructor]. now exists file.
    + split; [now apply begin_well_formed|].
      intros H; apply app_eq_nil in H as [_ H]; discriminate.
  - split; [apply Forall_app; split; [exact Hl|]|].
    + constructor; [|constructor]. now exists file.
    + split; [now apply begin_well_formed|].
      intros H; apply app_eq_nil in H as [_ H]; discriminate.
  - split; [apply Forall_app; split; [exact Hl|]|].
    + constructor; [|constructor]. now exists file.
    + split; [now apply begin_well_formed|].
      intros H; apply app_eq_nil in H as [_ H]; discriminate.
Qed.

Lemma Forall_remove_nth {A : Type} (P : A -> Prop) (i : nat) (l : list A) :
  Forall P l -> Forall P (remove_nth i l).
Proof.
  intros H; revert i; induction H as [|x l Hx Hl IH]; intros i.
  - destruct i; constructor.
  - destruct i as [|j]; simpl; [exact Hl|].
    constructor; [exact Hx|apply IH].
Qed.

Lemma step_orderly (k : option jsstring) (w w' : World) (e : event) :
  orderly k w -> step k w e = Some w' -> orderly k w'.
Proof.
  intros Hinv Hstep.
  destruct e as [[f|]|i result|i p| |]; simpl in Hstep.
  - destruct (input_offered (ui w)); [|discriminate].
    inversion Hstep; subst w'; clear Hstep.
    unfold handleImageUpload. apply launch_orderly.
    destruct Hinv as [Hl [_ Hi]].
    split; [exact Hl|]. split; [split; now left|exact Hi].
  - destruct (input_offered (ui w)); [|discriminate].
    now inversion Hstep; subst w'.
  - destruct (nth_error (previews w) i); [|discriminate].
    inversion Hstep; subst w'; clear Hstep. exact Hinv.
  - destruct (nth_error (attempts w) i) as [prog|] eqn:Hi; [|discriminate].
    inversion Hstep; subst w'; clear Hstep.
    destruct Hinv as [Hl [Hw _]]. unfold orderly, launched in *; simpl.
    split; [now apply Forall_remove_nth|]. split; [|reflexivity].
    apply settle_well_formed; [|exact Hw].
    apply nth_error_In in Hi.
    rewrite Forall_forall in Hl. destruct (Hl prog Hi) as [file ->].
    apply identifyPlant_conclusive.
  - destruct (retry_offered (ui w)); [|discriminate].
    inversion Hstep; subst w'; clear Hstep.
    now apply launch_orderly.
  - destruct (reset_offered (ui w)); [|discriminate].
    inversion Hstep; subst w'; clear Hstep.
    destruct Hinv as [Hl [_ Hi]].
    split; [exact Hl|]. split; [split; now left|exact Hi].
Qed.

Lemma steps_orderly (k : option jsstring) (es : list event) :
  forall w w', orderly k w -> steps k w es = Some w' -> orderly k w'.
Proof.
  induction es as [|e es IH]; intros w w' Hinv Hsteps; simpl in Hsteps.
  - now inversion Hsteps; subst.
  - destruct (step k w e) as [w1|] eqn:Hstep; [|discriminate].
    apply (IH w1 w'); [|exact Hsteps].
    exact (step_orderly k w w1 e Hinv Hstep).
Qed.

Lemma boot_orderly (k : option jsstring) : orderly k boot.
Proof.
  split; [constructor|]. split; [split; now left|reflexivity].
Qed.

(** X10: the spinner does not hang.  In every state the component can
    reach, under any interleaving of selections, previews, settling
    attempts, retries and resets, the state is loading only while an
    attempt is in flight, and every attempt in flight is a call of
    [identifyPlant]. *)
Theorem idle_means_not_loading (k : option jsstring) (es : list event)
  (w : World) :
  steps k boot es = Some w ->
  (attempts w = [] -> loading (ui w) = false)
  /\ (loading (ui w) = true -> attempts w <> [])
  /\ launched k w.
Proof.
  intros Hsteps.
  destruct (steps_orderly k es boot w (boot_orderly k) Hsteps)
    as [Hl [_ Hi]].
  split; [exact Hi|]. split; [|exact Hl].
  intros Hload Ha. rewrite (Hi Ha) in Hload. discriminate.
Qed.

Lemma idle_means_not_loading_witness :
  exists w,
    steps api_key boot retry_after_failure = Some w
    /\ loading (ui w) = false.
Proof.
  eexists. split; [reflexivity|].
  exact (proj1 (idle_means_not_loading api_key retry_after_failure _ eq_refl)
           eq_refl).
Defined.



(** X12: without overlap, loading tells whether an attempt is in flight.
    In every state reached by a sequence in which a file is only selected
    while no earlier attempt is in flight, the state is loading exactly
    when one attempt is in flight and not loading exactly when none is;
    while it is loading neither an error nor a result is held, also after
    a reset. *)
Theorem serial_loading_tracks_attempt (k : option jsstring)
  (es : list event) (w : World) :
  steps k boot es = Some w ->
  serial k boot es = true ->
  (loading (ui w) = true <-> length (attempts w) = 1)
  /\ (loading (ui w) = false <-> attempts w = [])
  /\ (loading (ui w) = true ->
      nullish (error (ui w)) = true /\ nullish (plantInfo (ui w)) = true).
Proof.
  intros Hsteps Hserial.
  pose proof (steps_invariant k es boot w boot_invariant Hserial Hsteps)
    as Hinv.
  unfold settled_or_waiting in Hinv.
  destruct (attempts w) as [|a [|a' rest]]; [| |contradiction].
  - destruct Hinv as [Hl _]. rewrite Hl.
    repeat split; intros; try discriminate; reflexivity.
  - destruct Hinv as [Hl [He Hp]]. rewrite Hl.
    repeat split; intros; try discriminate; try reflexivity; assumption.
Qed.

Lemma serial_loading_tracks_attempt_witness :
  exists w,
    steps api_key boot reset_while_loading = Some w
    /\ loading (ui w) = true
    /\ length (attempts w) = 1
    /\ render (ui w) = Normal UploadPrompt.
Proof.
  eexists. split; [reflexivity|]. split; [reflexivity|].
  split; [|reflexivity].
  exact (proj1 (proj1 (serial_loading_tracks_attempt api_key
                         reset_while_loading _ eq_refl eq_refl)) eq_refl).
Defined.

(* ================================================================== *)
(** * Selecting a file *)
(* ================================================================== *)

Lemma identifyPlant_awaits (k : option jsstring) (f : File) :
  key_missing k = false ->
  exists kont, identifyPlant k (Some f) = ReadAsDataURL f kont.
Proof.
  intros Hk. unfold identifyPlant. rewrite Hk. eexists. reflexivity.
Qed.

(** X13: a selection starts afresh.  [handleImageUpload] with a file
    records the file, queues its preview, and drops the previous result
    and error before the attempt starts: afterwards no result is held;
    with a key the state is loading, holds no error and one more attempt
    is in flight; without a key the configuration error is shown at once
    and nothing more is in flight.  The preview is not touched by the
    handler itself, and a cancelled dialog changes nothing. *)
Theorem selection_starts_afresh (k : option jsstring) (f : File) (w : World) :
  let w' := handleImageUpload k (Some f) w in
  selectedImage (ui w') = Some f
  /\ plantInfo (ui w') = Null
  /\ imagePreview (ui w') = imagePreview (ui w)
  /\ previews w' = previews w ++ [f]
  /\ ((key_missing k = true
       /\ error (ui w') = Str (failure_message ConfigurationError)
       /\ loading (ui w') = false
       /\ attempts w' = attempts w)
      \/ (key_missing k = false
          /\ error (ui w') = Null
          /\ loading (ui w') = true
          /\ attempts w' = attempts w ++ [identifyPlant k (Some f)]))
  /\ handleImageUpload k None w = w.
Proof.
  cbv zeta. unfold handleImageUpload, launch.
  destruct (key_missing k) eqn:Hk.
  - assert (Hid : identifyPlant k (Some f) = Ret (Failed ConfigurationError))
      by (unfold identifyPlant; now rewrite Hk).
    rewrite Hid. repeat split. left. repeat split.
  - destruct (identifyPlant_awaits k f Hk) as [kont Hid].
    rewrite Hid. cbn [ui attempts previews].
    repeat split. right. repeat split.
Qed.

(* ================================================================== *)
(** * The names on the result panel *)
(* ================================================================== *)

(** X14: when the result panel renders.  For a state that shows a
    result (a preview, not loading, no error): the panel is rendered, with
    the names of the payload and one chip per entry of [commonNames],
    exactly when the payload can be displayed, that is [commonNames] is
    absent, [null] or an array and no displayed value holds an object;
    otherwise rendering throws, and when [commonNames] is neither absent,
    [null] nor an array it is the [TypeError] of the call of [map]. *)
Theorem result_panel_needs_displayable (st : State) (c : char)
  (photo : jsstring) :
  imagePreview st = Some (c :: photo) ->
  loading st = false ->
  truthy (error st) = false ->
  truthy (plantInfo st) = true ->
  (displayable (plantInfo st) = true ->
   exists d,
     render st = Normal (Analysis (c :: photo) (Result d))
     /\ shown_name d = field (plantInfo st) (str "name")
     /\ shown_scientificName d = field (plantInfo st) (str "scientificName")
     /\ match field (plantInfo st) (str "commonNames") with
        | Arr names => shown_commonNames d = names
        | _ => shown_commonNames d = []
        end)
  /\ (displayable (plantInfo st) = false -> exists err, render st = Throw err)
  /\ match field (plantInfo st) (str "commonNames") with
     | Undefined | Null | Arr _ => True
     | _ =>
         render st
         = Throw (TypeError (str "plantInfo.commonNames?.map is not a function"))
     end.
Proof.
  intros Hpre Hload Herr Hinfo.
  unfold render, panel. rewrite Hpre, Hload, Herr, Hinfo.
  split; [|split].
  - intros Hd.
    destruct (details_displayable _ Hd) as [d Hdet].
    exists d. rewrite Hdet. split; [reflexivity|].
    destruct (details_inv _ _ Hdet) as [Hc [Hn [Hs _]]].
    split; [exact Hn|]. split; [exact Hs|].
    unfold chips in Hc.
    destruct (field (plantInfo st) (str "commonNames"));
      inversion Hc; reflexivity.
  - intros Hd.
    destruct (details (plantInfo st)) as [d|err] eqn:Hdet.
    + apply details_inv in Hdet as [_ [_ [_ [_ [_ [_ [_ H]]]]]]].
      congruence.
    + exists err. reflexivity.
  - unfold details, chips.
    destruct (field (plantInfo st) (str "commonNames")); try exact I;
      reflexivity.
Qed.

Lemma result_panel_needs_displayable_witness :
  render (setImagePreview (Some photo_url) (setPlantInfo nicknamed initial))
  = Throw (TypeError (str "plantInfo.commonNames?.map is not a function"))
  /\ exists d,
       render (setImagePreview (Some photo_url)
                 (setPlantInfo monstera initial))
       = Normal (Analysis photo_url (Result d))
       /\ shown_name d = Str (str "Monstera Deliciosa").
Proof.
  split.
  - exact (proj2 (proj2 (result_panel_needs_displayable
             (setImagePreview (Some photo_url)
                (setPlantInfo nicknamed initial))
             100%N (skipn 1 photo_url) eq_refl eq_refl eq_refl eq_refl))).
  - destruct (proj1 (result_panel_needs_displayable
             (setImagePreview (Some photo_url)
                (setPlantInfo monstera initial))
             100%N (skipn 1 photo_url) eq_refl eq_refl eq_refl eq_refl)
             eq_refl) as [d [Hr [Hn _]]].
    exists d. split; [exact Hr|exact Hn].
Defined.

(* ================================================================== *)
(** * The status in the text shown *)
(* ================================================================== *)

Lemma str_injective (a b : string) : str a = str b -> a = b.
Proof.
  unfold str. intros H.
  rewrite <- (string_of_list_ascii_of_string a),
          <- (string_of_list_ascii_of_string b).
  f_equal.
  revert H. generalize (list_ascii_of_string a) (list_ascii_of_string b).
  induction l as [|x l IH]; intros [|y l'] H; try discriminate;
    [reflexivity|].
  simpl in H. inversion H as [[Hx Hl]].
  f_equal; [|now apply IH].
  rewrite <- (ascii_N_embedding x), <- (ascii_N_embedding y).
  now rewrite Hx.
Qed.

Lemma show_N_injective (a b : N) : show_N a = show_N b -> a = b.
Proof.
  unfold show_N. intros H. apply str_injective in H.
  assert (Hu : Some (N.to_uint a) = Some (N.to_uint b)).
  { rewrite <- !NilEmpty.usu. now rewrite H. }
  inversion Hu as [Hab].
  rewrite <- (DecimalN.Unsigned.of_to a), <- (DecimalN.Unsigned.of_to b).
  now rewrite Hab.
Qed.

Lemma digits_have_no_colon (d : Decimal.uint) :
  ~ In 58%N (str (NilEmpty.string_of_uint d)).
Proof.
  induction d; cbn; intros H;
    try (destruct H as [H|H]; [discriminate H|]); tauto.
Qed.

Lemma show_N_no_colon (n : N) : ~ In 58%N (show_N n).
Proof. apply digits_have_no_colon. Qed.

(** Two texts that agree up to and after their first colon. *)
Lemma split_at_colon (a b x y : jsstring) :
  ~ In 58%N a -> ~ In 58%N b ->
  a ++ 58%N :: x = b ++ 58%N :: y -> a = b /\ x = y.
Proof.
  revert b; induction a as [|c a IH]; intros [|c' b] Ha Hb H; simpl in H.
  - inversion H. auto.
  - inversion H; subst. exfalso. apply Hb. now left.
  - inversion H; subst. exfalso. apply Ha. now left.
  - inversion H; subst.
    destruct (IH b) as [-> ->]; auto.
    + intros Hin; apply Ha; now right.
    + intros Hin; apply Hb; now right.
Qed.

(** The upstream part of two texts agrees only for the same status. *)
Lemma upstream_text_determines_status (s s' : N) (m m' : value) :
  failure_message (UpstreamError s m) = failure_message (UpstreamError s' m') ->
  s = s' /\ ToString m = ToString m'.
Proof.
  unfold failure_message, UpstreamError. cbn [message_of ToString].
  intros H.
  apply app_inv_head in H. apply app_inv_head in H.
  change (str ": " ++ ToString m) with (58%N :: 32%N :: ToString m) in H.
  change (str ": " ++ ToString m') with (58%N :: 32%N :: ToString m') in H.
  apply split_at_colon in H as [Hs Hm];
    [|apply show_N_no_colon|apply show_N_no_colon].
  split; [now apply show_N_injective|now inversion Hm].
Qed.

(** X15: failed requests with different statuses are told apart.  Take
    two attempts, each with the key present and the file read, each
    answered with a status outside 200-299 and a body that is not JSON or
    is a JSON value other than [null] whose [error.message] is a string or
    falsy.  If the two statuses differ, the two texts shown differ, whatever
    the messages: the status is printed in full, in digits, in front of
    the first colon of the upstream part. *)
Theorem failed_requests_told_apart (k : option jsstring) (f f' : File)
  (p p' : Platform) (u u' : jsstring) (r r' : Response) (msg msg' : jsstring)
  (st st' : State) :
  key_missing k = false ->
  readAsDataURL p f = Loaded u ->
  fetch p (request_for k f u) = Responded r ->
  ok r = false ->
  upstream_text r = Some msg ->
  readAsDataURL p' f' = Loaded u' ->
  fetch p' (request_for k f' u') = Responded r' ->
  ok r' = false ->
  upstream_text r' = Some msg' ->
  status r <> status r' ->
  error (attempt k p (Some f) st) <> error (attempt k p' (Some f') st').
Proof.
  intros Hk Hread Hfetch Hok Ht Hread' Hfetch' Hok' Ht' Hs Heq.
  destruct (attempt_reaches_response k f p u r Hk Hread Hfetch Hok)
    as [Hrun _].
  destruct (attempt_reaches_response k f' p' u' r' Hk Hread' Hfetch' Hok')
    as [Hrun' _].
  unfold attempt in Heq. rewrite Hrun, Hrun' in Heq.
  destruct (upstream_error r msg Ht) as [Hf _].
  destruct (upstream_error r' msg' Ht') as [Hf' _].
  rewrite Hf, Hf' in Heq.
  cbn [identifyPlant_settle setLoading setError error] in Heq.
  assert (Htext : failure_message (UpstreamError (status r) (Str msg))
                  = failure_message (UpstreamError (status r') (Str msg')))
    by congruence.
  apply Hs.
  exact (proj1 (upstream_text_determines_status (status r) (status r')
                  (Str msg) (Str msg') Htext)).
Qed.

Lemma failed_requests_told_apart_witness :
  error (attempt api_key (platform_with rate_limited [] Null) (Some photo)
           initial)
  = Str (str "Failed to identify plant: API request failed with status 429: Resource has been exhausted")
  /\ error (attempt api_key (platform_with rate_limited [] Null) (Some photo)
              initial)
     <> error (attempt api_key (platform_with server_error [] Null)
                 (Some photo) initial).
Proof.
  split; [reflexivity|].
  apply (failed_requests_told_apart api_key photo photo
           (platform_with rate_limited [] Null)
           (platform_with server_error [] Null)
           photo_url photo_url
           {| status := 429%N; body := Parsed quota_exceeded |}
           {| status := 500%N;
              body := Unparseable (str "Unexpected token < in JSON at position 0") |}
           (str "Resource has been exhausted") (str "Unknown error")
           initial initial);
    try reflexivity.
  discriminate.
Defined.

(* ================================================================== *)
(** * Reset while an attempt is in flight *)
(* ================================================================== *)

(** X16: a reset does not cancel.  The X button leaves the attempts in
    flight as they are, and it leaves the loading flag.  An attempt that
    ends right after the reset stores its outcome on the emptied state:
    no image is selected and the upload prompt is still rendered, while
    the state holds the error or the result of the attempt. *)
Theorem reset_does_not_cancel (k : option jsstring) (w w' w'' : World)
  (i : nat) (p : Platform) :
  step k w ResetClicked = Some w' ->
  step k w' (Settled i p) = Some w'' ->
  attempts w' = attempts w
  /\ loading (ui w') = loading (ui w)
  /\ (exists prog,
        nth_error (attempts w) i = Some prog
        /\ ui w'' = identifyPlant_settle (snd (run p prog))
                      (resetUpload (ui w)))
  /\ selectedImage (ui w'') = None
  /\ render (ui w'') = Normal UploadPrompt
  /\ length (attempts w'') < length (attempts w).
Proof.
  intros Hreset Hsettle. simpl in Hreset.
  destruct (reset_offered (ui w)); [|discriminate].
  inversion Hreset; subst w'; clear Hreset.
  simpl in Hsettle.
  destruct (nth_error (attempts w) i) as [prog|] eqn:Hi; [|discriminate].
  inversion Hsettle; subst w''; clear Hsettle.
  split; [reflexivity|]. split; [reflexivity|].
  split; [now exists prog|].
  split; [destruct (snd (run p prog)); reflexivity|].
  split; [destruct (snd (run p prog)); reflexivity|].
  cbn [attempts].
  clear - Hi. revert i Hi.
  induction (attempts w) as [|a l IH]; intros [|j] Hi; simpl in *;
    try discriminate; [lia|].
  specialize (IH j Hi). lia.
Qed.

Lemma reset_does_not_cancel_witness :
  steps api_key boot [SelectFile (Some photo);
                      PreviewLoaded 0 (Some photo_url)]
  = Some waiting_with_preview
  /\ plantInfo (ui answered_after_reset) = monstera
  /\ selectedImage (ui answered_after_reset) = None
  /\ render (ui answered_after_reset) = Normal UploadPrompt.
Proof.
  split; [reflexivity|]. split; [reflexivity|].
  pose proof (reset_does_not_cancel api_key waiting_with_preview
                waiting_after_reset answered_after_reset 0
                (platform_with (completes monstera_text) monstera_text
                   monstera) eq_refl eq_refl) as [_ [_ [_ [Hs [Hr _]]]]].
  split; [exact Hs|exact Hr].
Defined.
